(** * AdmitGuard: the rule evaluator, the rationale gate and the submission gate

    A shallow embedding of [src/lib/validation.ts] ([validateField],
    [checkRationale]), of the derived values of [src/App.tsx]
    ([activeExceptionsCount], [isFlagged], [canSubmit], the validation effect)
    and of the shipped schema of [src/config/rules.ts].

    Conventions of the embedding.
    - A JavaScript string is a [string]; every [ascii] stands for one UTF-16
      code unit in the range U+0000..U+00FF, so [String.length] is [.length].
    - A JavaScript number is a [number]: not-a-number, the two infinities, or a
      finite value, written as the rational it denotes.  The code compares
      numbers and reads their truthiness, which is exact on doubles; the one
      place where a number is computed is [Number(string)], which rounds the
      value of the literal to the nearest double ([toDouble]).
    - A JavaScript object used as a record ([formData], [exceptions],
      [validationErrors]) is a [gmap string _]; a missing key reads as
      [undefined].
    - A call either returns or throws: [outcome]. *)

From Stdlib Require Import String Ascii List ZArith QArith Bool Lia.
From stdpp Require Import gmap strings list fin_maps pretty.

Open Scope Z_scope.

(** ** Numbers *)

Inductive number :=
  | NaN
  | NegInfinity
  | Finite (q : Q)
  | Infinity.

Definition int (z : Z) : number := Finite (inject_Z z).

Definition Qlt_bool (x y : Q) : bool := negb (Qle_bool y x).

(** [a < b] on numbers; any comparison with [NaN] is [false]. *)
Definition num_lt (a b : number) : bool :=
  match a, b with
  | NaN, _ | _, NaN => false
  | NegInfinity, NegInfinity => false
  | NegInfinity, _ => true
  | Finite _, NegInfinity => false
  | Finite x, Finite y => Qlt_bool x y
  | Finite _, Infinity => true
  | Infinity, _ => false
  end.

(** [a > b]. *)
Definition num_gt (a b : number) : bool := num_lt b a.

(** [a === b] on numbers: [NaN] differs from everything, itself included. *)
Definition num_eq (a b : number) : bool :=
  match a, b with
  | NegInfinity, NegInfinity => true
  | Finite x, Finite y => Qeq_bool x y
  | Infinity, Infinity => true
  | _, _ => false
  end.

(** Truthiness of a number: [0] and [NaN] are falsy. *)
Definition num_truthy (a : number) : bool :=
  match a with
  | NaN => false
  | Finite q => negb (Qeq_bool q 0)
  | _ => true
  end.

(** [o || d] for an optional numeric property [o]. *)
Definition num_or (o : option number) (d : number) : number :=
  match o with
  | Some n => if num_truthy n then n else d
  | None => d
  end.

(** ** Characters and strings *)

Definition chars (s : string) : list ascii := String.list_ascii_of_string s.

Definition code (c : ascii) : N := N_of_ascii c.

Definition in_range (lo hi : N) (c : ascii) : bool :=
  (N.leb lo (code c) && N.leb (code c) hi)%bool.

(** [0-9] *)
Definition is_digit (c : ascii) : bool := in_range 48 57 c.

(** The white space and line terminator code units below U+0100: the
    characters [\s] stands for, and the ones [Number] trims. *)
Definition is_space (c : ascii) : bool :=
  (in_range 9 13 c || N.eqb (code c) 32 || N.eqb (code c) 160)%bool.

(** [\w] *)
Definition is_word (c : ascii) : bool :=
  (in_range 48 57 c || in_range 65 90 c || in_range 97 122 c || N.eqb (code c) 95)%bool.

(** Upper-case letters below U+0100: A-Z, and U+00C0..U+00DE but U+00D7. *)
Definition is_upper (c : ascii) : bool :=
  (in_range 65 90 c || (in_range 192 222 c && negb (N.eqb (code c) 215)))%bool.

Definition lower_char (c : ascii) : ascii :=
  if is_upper c then ascii_of_N (code c + 32) else c.

(** [s.toLowerCase()] on the strings of the embedding, whose code units lie
    in U+0000..U+00FF: there every unit is mapped on its own, to one unit.
    The mappings of [toLowerCase] that change the length of a string or
    look at the neighbours of a character (U+0130, the final sigma) concern
    code units above U+00FF, which these strings do not hold. *)
Fixpoint toLowerCase (s : string) : string :=
  match s with
  | EmptyString => EmptyString
  | String c s' => String (lower_char c) (toLowerCase s')
  end.

(** [s.startsWith(p)] *)
Fixpoint startsWith (p s : string) : bool :=
  match p, s with
  | EmptyString, _ => true
  | String a p', String b s' => (Ascii.eqb a b && startsWith p' s')%bool
  | String _ _, EmptyString => false
  end.

(** [s.includes(sub)] on strings: [sub] occurs in [s] as a substring. *)
Fixpoint includes (s sub : string) : bool :=
  (startsWith sub s ||
   match s with
   | EmptyString => false
   | String _ s' => includes s' sub
   end)%bool.

(** [ls.join(sep)] *)
Fixpoint join (sep : string) (ls : list string) : string :=
  match ls with
  | [] => EmptyString
  | [x] => x
  | x :: rest => x +:+ sep +:+ join sep rest
  end.

(** ** Rounding to a double

    The Number value for a rational: the nearest binary64 value, ties to the
    even significand; [0] below half of the smallest subnormal [2^-1074], an
    infinity from [2^1024 - 2^970] on. *)

(** [n / d] rounded to the nearest integer, ties to even; [0 <= n], [0 < d]. *)
Definition round_half_even (n d : Z) : Z :=
  let q := n / d in
  match 2 * (n mod d) ?= d with
  | Lt => q
  | Eq => if Z.even q then q else q + 1
  | Gt => q + 1
  end.

(** The exponent [e] with [2^e <= n / d < 2^(e+1)]; [0 < n], [0 < d]. *)
Definition binade (n d : Z) : Z :=
  let e := Z.log2 n - Z.log2 d in
  if (if 0 <=? e then d * 2 ^ e <=? n else d <=? n * 2 ^ (- e)) then e else e - 1.

(** The double nearest to [n / d]; [0 < n], [0 < d].  The significand has
    53 bits above the exponent -1022 and fewer below: the value is rounded
    to a multiple of [2^k]. *)
Definition nearest_double (n d : Z) : number :=
  let k := Z.max (binade n d) (-1022) - 52 in
  if 0 <=? k then
    let z := round_half_even n (d * 2 ^ k) * 2 ^ k in
    if 2 ^ 1024 <=? z then Infinity else Finite (inject_Z z)
  else
    Finite (Qred (Qmake (round_half_even (n * 2 ^ (- k)) d) (Z.to_pos (2 ^ (- k))))).

Definition toDouble (q : Q) : number :=
  match Qnum q with
  | Z0 => Finite 0
  | Zpos n => nearest_double (Zpos n) (Zpos (Qden q))
  | Zneg n =>
      match nearest_double (Zpos n) (Zpos (Qden q)) with
      | Finite x => Finite (Qopp x)
      | _ => NegInfinity
      end
  end.

(** ** [Number(string)]

    The StringToNumber grammar: surrounding white space is trimmed, the empty
    string is [0], then a signed decimal literal (with optional fraction and
    exponent), a signed [Infinity], or an unsigned [0x], [0o] or [0b]
    literal.  Everything else is [NaN].  The value of a literal is rounded
    to a double. *)

Fixpoint span (p : ascii -> bool) (l : list ascii) : list ascii * list ascii :=
  match l with
  | [] => ([], [])
  | c :: l' => if p c then let '(a, b) := span p l' in (c :: a, b) else ([], l)
  end.

Fixpoint skip_spaces (l : list ascii) : list ascii :=
  match l with
  | c :: l' => if is_space c then skip_spaces l' else l
  | [] => []
  end.

Definition trim (l : list ascii) : list ascii :=
  rev (skip_spaces (rev (skip_spaces l))).

(** The value of a digit in radix up to 16, if it is one. *)
Definition digit_of (c : ascii) : option Z :=
  if in_range 48 57 c then Some (Z.of_N (code c) - 48)
  else if in_range 97 102 c then Some (Z.of_N (code c) - 87)
  else if in_range 65 70 c then Some (Z.of_N (code c) - 55)
  else None.

(** The value of a non-empty run of digits of the radix, most significant
    first; [None] when the run is empty or holds another character. *)
Fixpoint radix_val (radix acc : Z) (seen : bool) (l : list ascii) : option Z :=
  match l with
  | [] => if seen then Some acc else None
  | c :: l' =>
      match digit_of c with
      | Some d => if d <? radix then radix_val radix (radix * acc + d) true l' else None
      | None => None
      end
  end.

Definition digits_val (ds : list ascii) : Z :=
  fold_left (fun acc c => 10 * acc + (Z.of_N (code c) - 48)) ds 0.

Definition pow10 (e : Z) : Q :=
  if 0 <=? e then inject_Z (10 ^ e) else Qinv (inject_Z (10 ^ (- e))).

Definition is_e (c : ascii) : bool := (N.eqb (code c) 101 || N.eqb (code c) 69)%bool.

(** The exponent part, which must reach the end of the literal. *)
Definition parse_exponent (l : list ascii) : option Z :=
  match l with
  | [] => Some 0
  | c :: l' =>
      if is_e c then
        let '(sign, l'') :=
          match l' with
          | "+"%char :: t => (1, t)
          | "-"%char :: t => (-1, t)
          | _ => (1, l')
          end in
        match span is_digit l'' with
        | ([], _) => None
        | (ds, []) => Some (sign * digits_val ds)
        | (_, _ :: _) => None
        end
      else None
  end.

Definition parse_unsigned (l : list ascii) : number :=
  if bool_decide (l = chars "Infinity") then Infinity
  else
    let '(ip, r1) := span is_digit l in
    let '(fp, r2) :=
      match r1 with
      | "."%char :: t => span is_digit t
      | _ => ([], r1)
      end in
    match ip, fp with
    | [], [] => NaN
    | _, _ =>
        match parse_exponent r2 with
        | Some e =>
            toDouble (inject_Z (digits_val (ip ++ fp)) * pow10 (e - Z.of_nat (length fp)))
        | None => NaN
        end
    end.

Definition num_neg (n : number) : number :=
  match n with
  | NaN => NaN
  | NegInfinity => Infinity
  | Finite q => Finite (Qopp q)
  | Infinity => NegInfinity
  end.

Definition of_radix (radix : Z) (l : list ascii) : number :=
  match radix_val radix 0 false l with
  | Some z => toDouble (inject_Z z)
  | None => NaN
  end.

Definition stringToNumber (s : string) : number :=
  match trim (chars s) with
  | [] => int 0
  | "0"%char :: "x"%char :: t | "0"%char :: "X"%char :: t => of_radix 16 t
  | "0"%char :: "o"%char :: t | "0"%char :: "O"%char :: t => of_radix 8 t
  | "0"%char :: "b"%char :: t | "0"%char :: "B"%char :: t => of_radix 2 t
  | "+"%char :: t => parse_unsigned t
  | "-"%char :: t => num_neg (parse_unsigned t)
  | l => parse_unsigned l
  end.

(** ** Values *)

(** The primitive values a record, a rule parameter or a verdict can hold:
    what the source types as [any]. *)
Inductive any :=
  | VUndefined
  | VNull
  | VBool (b : bool)
  | VNum (n : number)
  | VStr (s : string).

(** [typeof v === 'string'] *)
Definition is_string (v : any) : bool :=
  match v with VStr _ => true | _ => false end.

(** [a === b] *)
Definition strict_eq (a b : any) : bool :=
  match a, b with
  | VUndefined, VUndefined => true
  | VNull, VNull => true
  | VBool x, VBool y => Bool.eqb x y
  | VNum x, VNum y => num_eq x y
  | VStr x, VStr y => String.eqb x y
  | _, _ => false
  end.

(** SameValueZero, the comparison of [Array.prototype.includes]: as [===]
    but [NaN] equals itself. *)
Definition same_value_zero (a b : any) : bool :=
  match a, b with
  | VNum NaN, VNum NaN => true
  | _, _ => strict_eq a b
  end.

(** [arr.includes(v)] *)
Definition arr_includes (arr : list any) (v : any) : bool :=
  existsb (fun x => same_value_zero x v) arr.

Definition truthy (v : any) : bool :=
  match v with
  | VUndefined | VNull => false
  | VBool b => b
  | VNum n => num_truthy n
  | VStr s => negb (String.eqb s "")
  end.

(** [a || b] *)
Definition js_or (a b : any) : any := if truthy a then a else b.

(** [Number(v)] *)
Definition toNumber (v : any) : number :=
  match v with
  | VUndefined => NaN
  | VNull => int 0
  | VBool b => if b then int 1 else int 0
  | VNum n => n
  | VStr s => stringToNumber s
  end.

(** An optional string property read as a value. *)
Definition of_opt (o : option string) : any :=
  match o with
  | Some s => VStr s
  | None => VUndefined
  end.

(** Truthiness of an optional string property. *)
Definition str_truthy (o : option string) : bool :=
  match o with
  | Some s => negb (String.eqb s "")
  | None => false
  end.

(** [a || b] for two optional string properties. *)
Definition str_or (a b : option string) : option string :=
  if str_truthy a then a else b.

(** [obj[key]] on a record. *)
Definition get (obj : gmap string any) (key : string) : any :=
  default VUndefined (obj !! key).

(** ** Calls that may throw *)

Inductive exn :=
  | SyntaxError (pattern : string).

Inductive outcome (A : Type) :=
  | Returned (a : A)
  | Thrown (e : exn).
Arguments Returned {A} a.
Arguments Thrown {A} e.

(** ** Regular expressions

    The regular expression literals of the evaluator ([/[0-9]/] and the e-mail
    shape) are written as [regex] terms and run by a derivative matcher.
    [RegExp_test] is [RegExp.prototype.test] without flags: the pattern is
    searched for anywhere in the input unless it is anchored. *)

Inductive regex :=
  | RNone
  | REps
  | RSet (p : ascii -> bool)
  | RSeq (r1 r2 : regex)
  | RAlt (r1 r2 : regex)
  | RStar (r : regex).

Fixpoint nullable (r : regex) : bool :=
  match r with
  | RNone => false
  | REps => true
  | RSet _ => false
  | RSeq r1 r2 => nullable r1 && nullable r2
  | RAlt r1 r2 => nullable r1 || nullable r2
  | RStar _ => true
  end.

Fixpoint deriv (c : ascii) (r : regex) : regex :=
  match r with
  | RNone => RNone
  | REps => RNone
  | RSet p => if p c then REps else RNone
  | RSeq r1 r2 =>
      if nullable r1 then RAlt (RSeq (deriv c r1) r2) (deriv c r2)
      else RSeq (deriv c r1) r2
  | RAlt r1 r2 => RAlt (deriv c r1) (deriv c r2)
  | RStar r1 => RSeq (deriv c r1) (RStar r1)
  end.

Fixpoint matches (r : regex) (l : list ascii) : bool :=
  match l with
  | [] => nullable r
  | c :: l' => matches (deriv c r) l'
  end.

(** [r+], [r?] and [r{n}] *)
Definition RPlus (r : regex) : regex := RSeq r (RStar r).
Definition ROpt (r : regex) : regex := RAlt r REps.
Fixpoint RPow (r : regex) (n : nat) : regex :=
  match n with
  | O => REps
  | S n' => RSeq r (RPow r n')
  end.

(** One alternative of a compiled pattern: its body and whether [^] and [$]
    anchor it. *)
Record RegExp := {
  re_start : bool;
  re_body : regex;
  re_end : bool
}.

Definition any_char : ascii -> bool := fun _ => true.

Definition RegExp_test (re : RegExp) (s : string) : bool :=
  matches
    (RSeq (if re_start re then REps else RStar (RSet any_char))
       (RSeq (re_body re) (if re_end re then REps else RStar (RSet any_char))))
    (chars s).

(** [/[0-9]/] *)
Definition digit_re : RegExp :=
  {| re_start := false; re_body := RSet is_digit; re_end := false |}.

(** [[^\s@]] *)
Definition email_char (c : ascii) : bool :=
  negb (is_space c || Ascii.eqb c "@").

(** [/^[^\s@]+@[^\s@]+\.[^\s@]+$/] *)
Definition email_re : RegExp :=
  {| re_start := true;
     re_body :=
       RSeq (RPlus (RSet email_char))
         (RSeq (RSet (Ascii.eqb "@"))
            (RSeq (RPlus (RSet email_char))
               (RSeq (RSet (Ascii.eqb "."))
                  (RPlus (RSet email_char)))));
     re_end := true |}.

(** ** [new RegExp(pattern)] for a sublanguage of patterns

    [RegExp_new] reads the patterns built from literal characters, [.],
    the escapes [\d \D \w \W \s \S \t \n \v \f \r] and escaped punctuation,
    classes [[...]] and [[^...]] with ranges, groups [(...)] and [(?:...)],
    alternation, the quantifiers [* + ? {n} {n,} {n,m}], and, in each
    alternative of the top level, a leading [^] and a trailing [$].  It
    answers the alternatives of the pattern, and [None] where the
    constructor throws a SyntaxError: an unterminated group or class, a
    quantifier with nothing to repeat, an unmatched parenthesis, a range out
    of order.  The constructor accepts more than this sublanguage
    (assertions inside groups, look-around, back references, lazy
    quantifiers, [\b], [\x], [\u] and [\c] escapes, named groups); on such
    a pattern [RegExp_new] also answers [None] and is not a model of the
    constructor, so the examples use it on patterns of the sublanguage
    only. *)

Definition is_in (set : string) (c : ascii) : bool :=
  existsb (Ascii.eqb c) (chars set).

Definition set_union (p q : ascii -> bool) : ascii -> bool := fun c => p c || q c.
Definition set_compl (p : ascii -> bool) : ascii -> bool := fun c => negb (p c).
Definition set_range (lo hi : ascii) : ascii -> bool := in_range (code lo) (code hi).

(** [.] matches everything but a line terminator. *)
Definition dot_char (c : ascii) : bool := negb (N.eqb (code c) 10 || N.eqb (code c) 13).

(** What stands after a backslash: one character or a set of them. *)
Inductive class_atom :=
  | CChar (c : ascii)
  | CSet (p : ascii -> bool).

Definition atom_set (a : class_atom) : ascii -> bool :=
  match a with
  | CChar c => Ascii.eqb c
  | CSet p => p
  end.

Definition parse_escape (c : ascii) : option class_atom :=
  if Ascii.eqb c "d" then Some (CSet is_digit)
  else if Ascii.eqb c "D" then Some (CSet (set_compl is_digit))
  else if Ascii.eqb c "w" then Some (CSet is_word)
  else if Ascii.eqb c "W" then Some (CSet (set_compl is_word))
  else if Ascii.eqb c "s" then Some (CSet is_space)
  else if Ascii.eqb c "S" then Some (CSet (set_compl is_space))
  else if Ascii.eqb c "t" then Some (CChar (ascii_of_N 9))
  else if Ascii.eqb c "n" then Some (CChar (ascii_of_N 10))
  else if Ascii.eqb c "v" then Some (CChar (ascii_of_N 11))
  else if Ascii.eqb c "f" then Some (CChar (ascii_of_N 12))
  else if Ascii.eqb c "r" then Some (CChar (ascii_of_N 13))
  else if is_word c then None
  else Some (CChar c).

(** One member of a class: an escape or any character. *)
Definition parse_class_atom (l : list ascii) : option (class_atom * list ascii) :=
  match l with
  | [] => None
  | c :: rest =>
      if Ascii.eqb c "\" then
        match rest with
        | e :: rest' =>
            match parse_escape e with
            | Some a => Some (a, rest')
            | None => None
            end
        | [] => None
        end
      else Some (CChar c, rest)
  end.

(** The members of a class up to its closing bracket. *)
Fixpoint parse_class_items (fuel : nat) (acc : ascii -> bool) (l : list ascii)
  : option ((ascii -> bool) * list ascii) :=
  match fuel with
  | O => None
  | S n =>
      match l with
      | [] => None
      | c :: rest =>
          if Ascii.eqb c "]" then Some (acc, rest)
          else
            match parse_class_atom l with
            | None => None
            | Some (CChar lo, d :: e :: rest') =>
                if Ascii.eqb d "-" && negb (Ascii.eqb e "]") then
                  match parse_class_atom (e :: rest') with
                  | Some (CChar hi, rest'') =>
                      if N.leb (code lo) (code hi)
                      then parse_class_items n (set_union acc (set_range lo hi)) rest''
                      else None
                  | _ => None
                  end
                else parse_class_items n (set_union acc (Ascii.eqb lo)) (d :: e :: rest')
            | Some (a, rest') => parse_class_items n (set_union acc (atom_set a)) rest'
            end
      end
  end.

Definition parse_class (l : list ascii) : option (regex * list ascii) :=
  let '(neg, l') :=
    match l with
    | c :: t => if Ascii.eqb c "^" then (true, t) else (false, l)
    | [] => (false, l)
    end in
  match parse_class_items (S (length l')) (fun _ => false) l' with
  | Some (p, rest) => Some (RSet (if neg then set_compl p else p), rest)
  | None => None
  end.

(** A braced quantifier [{n}], [{n,}] or [{n,m}] at the head of the input:
    its bounds and what follows it. *)
Definition parse_braces (l : list ascii) : option (nat * option (option nat) * list ascii) :=
  match l with
  | c :: t =>
      if Ascii.eqb c "{" then
        match span is_digit t with
        | ([], _) => None
        | (ds, d :: t') =>
            let n := Z.to_nat (digits_val ds) in
            if Ascii.eqb d "}" then Some (n, None, t')
            else if Ascii.eqb d "," then
              match span is_digit t' with
              | ([], e :: t'') =>
                  if Ascii.eqb e "}" then Some (n, Some None, t'') else None
              | (ds', e :: t'') =>
                  if Ascii.eqb e "}"
                  then Some (n, Some (Some (Z.to_nat (digits_val ds'))), t'')
                  else None
              | (_, []) => None
              end
            else None
        | (_, []) => None
        end
      else None
  | [] => None
  end.

(** The quantifier that follows an atom, if any. *)
Definition parse_quant (a : regex) (l : list ascii) : option (regex * list ascii) :=
  match l with
  | [] => Some (a, l)
  | c :: t =>
      if Ascii.eqb c "*" then Some (RStar a, t)
      else if Ascii.eqb c "+" then Some (RPlus a, t)
      else if Ascii.eqb c "?" then Some (ROpt a, t)
      else
        match parse_braces l with
        | Some (n, None, t') => Some (RPow a n, t')
        | Some (n, Some None, t') => Some (RSeq (RPow a n) (RStar a), t')
        | Some (n, Some (Some m), t') =>
            if (n <=? m)%nat
            then Some (RSeq (RPow a n) (RPow (ROpt a) (m - n)), t')
            else None
        | None => Some (a, l)
        end
  end.

Fixpoint parse_alt (fuel : nat) (l : list ascii) : option (regex * list ascii) :=
  match fuel with
  | O => None
  | S n =>
      match parse_seq n l with
      | Some (r, c :: rest) =>
          if Ascii.eqb c "|" then
            match parse_alt n rest with
            | Some (r', rest') => Some (RAlt r r', rest')
            | None => None
            end
          else Some (r, c :: rest)
      | other => other
      end
  end
with parse_seq (fuel : nat) (l : list ascii) : option (regex * list ascii) :=
  match fuel with
  | O => None
  | S n =>
      match l with
      | [] => Some (REps, [])
      | c :: _ =>
          if is_in "|)$" c then Some (REps, l)
          else
            match parse_atom n l with
            | Some (a, rest) =>
                match parse_quant a rest with
                | Some (q, rest') =>
                    match parse_seq n rest' with
                    | Some (r, rest'') => Some (RSeq q r, rest'')
                    | None => None
                    end
                | None => None
                end
            | None => None
            end
      end
  end
with parse_atom (fuel : nat) (l : list ascii) : option (regex * list ascii) :=
  match fuel with
  | O => None
  | S n =>
      match l with
      | [] => None
      | c :: rest =>
          if Ascii.eqb c "(" then
            let body :=
              match rest with
              | q :: t =>
                  if Ascii.eqb q "?" then
                    match t with
                    | k :: t' => if Ascii.eqb k ":" then Some t' else None
                    | [] => None
                    end
                  else Some rest
              | [] => Some rest
              end in
            match body with
            | Some b =>
                match parse_alt n b with
                | Some (r, k :: rest') =>
                    if Ascii.eqb k ")" then Some (r, rest') else None
                | _ => None
                end
            | None => None
            end
          else if Ascii.eqb c "[" then parse_class rest
          else if Ascii.eqb c "\" then
            match rest with
            | e :: rest' =>
                match parse_escape e with
                | Some a => Some (RSet (atom_set a), rest')
                | None => None
                end
            | [] => None
            end
          else if Ascii.eqb c "." then Some (RSet dot_char, rest)
          else if is_in "*+?^" c then None
          else if bool_decide (is_Some (parse_braces l)) then None
          else Some (RSet (Ascii.eqb c), rest)
      end
  end.

(** The alternatives of the top level, each with its own anchors. *)
Fixpoint parse_top (fuel n : nat) (l : list ascii) : option (list RegExp) :=
  match n with
  | O => None
  | S n' =>
      let '(start, l') :=
        match l with
        | c :: t => if Ascii.eqb c "^" then (true, t) else (false, l)
        | [] => (false, l)
        end in
      match parse_seq fuel l' with
      | Some (r, rest) =>
          let '(end_, rest') :=
            match rest with
            | c :: t => if Ascii.eqb c "$" then (true, t) else (false, rest)
            | [] => (false, rest)
            end in
          let re := {| re_start := start; re_body := r; re_end := end_ |} in
          match rest' with
          | [] => Some [re]
          | c :: more =>
              if Ascii.eqb c "|" then option_map (cons re) (parse_top fuel n' more) else None
          end
      | None => None
      end
  end.

Definition RegExp_new (pattern : string) : option (list RegExp) :=
  let l := chars pattern in
  parse_top (4 * S (length l)) (S (length l)) l.

(** The engine seen by the evaluator: compile, then search for a match of
    one of the alternatives. *)
Definition subset_engine (pattern : string) : option (string -> bool) :=
  option_map (fun alternatives s => existsb (fun re => RegExp_test re s) alternatives)
    (RegExp_new pattern).

(** ** The rule schema ([config/rules.ts]) *)

Inductive RuleType :=
  | required | minLength | noNumbers | emailFormat | unique | pattern
  | ageRange | range | minValue | notEquals | exactLength | conditional.

Global Instance RuleType_eq_dec : EqDecision RuleType.
Proof. solve_decision. Defined.

(** A sub-condition of a [conditional] rule.  An absent [is] is
    [VUndefined]; the other optional properties are options. *)
Module Cond.
Record t := {
  when : string;
  is_ : any;
  in_ : option (list any);
  requires : option string;
  min : option number;
  max : option number;
  message : option string
}.
End Cond.

(** [ValidationRule]; an absent [value] is [VUndefined]. *)
Module Rule.
Record t := {
  type : RuleType;
  message : option string;
  value : any;
  pattern : option string;
  min : option number;
  max : option number;
  checkStorage : option bool;
  blockSubmission : option bool;
  bannerMessage : option string;
  conditions : option (list Cond.t)
}.
End Rule.

Inductive Category := strict | soft.

Global Instance Category_eq_dec : EqDecision Category.
Proof. solve_decision. Defined.

Inductive InputType :=
  | text_input | email_input | tel_input | date_input
  | select_input | number_input | toggle_input.

(** [FieldConfig]; [rationaleMinLength] is a whole number. *)
Module Field.
Record t := {
  id : string;
  label : string;
  type : InputType;
  category : Category;
  options : option (list string);
  subType : option InputType;
  validations : list Rule.t;
  allowException : bool;
  rationaleKeywords : option (list string);
  rationaleMinLength : option Z
}.
End Field.

Record SystemRules := {
  maxExceptions : Z;
  flagMessage : string
}.

Record RulesConfig := {
  fields : list Field.t;
  systemRules : SystemRules
}.

(** ** Verdicts and application state *)

Module ValidationResult.
Record t := {
  valid : bool;
  error : any;
  isSoft : bool;
  blockSubmission : option bool
}.
End ValidationResult.

(** The object returned by [checkRationale]. *)
Module RationaleResult.
Record t := {
  valid : bool;
  error : any
}.
End RationaleResult.

Record Exception := {
  active : bool;
  rationale : string
}.

(** An entry of the audit log; every entry holds a [formData] record, as the
    interface declares. *)
Module AuditEntry.
Record t := {
  id : string;
  timestamp : string;
  formData : gmap string any;
  exceptions : gmap string Exception;
  exceptionCount : nat;
  isFlagged : bool
}.
End AuditEntry.

(** ** The rule evaluator ([lib/validation.ts]) *)

Section Evaluator.

(** [new RegExp(pattern)]: [None] when the constructor throws, otherwise the
    [test] function of the compiled pattern. *)
Variable RegExp_compile : string -> option (string -> bool).

(** [differenceInYears(new Date(), new Date(value))]: the whole years
    between the date a value denotes and the time of the call. *)
Variable ageInYears : any -> number.

(** A failure verdict without [blockSubmission]. *)
Definition failure (isSoft : bool) (message : option string) : ValidationResult.t :=
  {| ValidationResult.valid := false;
     ValidationResult.error := of_opt message;
     ValidationResult.isSoft := isSoft;
     ValidationResult.blockSubmission := None |}.

(** Whether a sub-condition applies to the record. *)
Definition applies (allData : gmap string any) (cond : Cond.t) : bool :=
  let whenValue := get allData (Cond.when cond) in
  (negb (strict_eq (Cond.is_ cond) VUndefined) && strict_eq whenValue (Cond.is_ cond))
  || match Cond.in_ cond with
     | Some arr => arr_includes arr whenValue
     | None => false
     end.

(** The [requires] check of an applicable sub-condition fails. *)
Definition requires_fails (allData : gmap string any) (cond : Cond.t) : bool :=
  match Cond.requires cond with
  | Some req =>
      negb (String.eqb req "")
      && match Cond.in_ cond with
         | Some arr => negb (arr_includes arr (get allData req))
         | None => false
         end
  | None => false
  end.

(** The [min]/[max] check of an applicable sub-condition fails. *)
Definition bounds_fail (val : number) (cond : Cond.t) : bool :=
  match Cond.min cond with
  | Some m => num_lt val m
  | None => false
  end
  || match Cond.max cond with
     | Some m => num_gt val m
     | None => false
     end.

(** One turn of the loop over [rule.conditions]: the verdict returned from
    inside the loop, if any. *)
Definition check_condition (rule : Rule.t) (isSoft : bool) (value : any)
    (allData : gmap string any) (cond : Cond.t) : option ValidationResult.t :=
  if applies allData cond then
    if requires_fails allData cond
    then Some (failure isSoft (str_or (Cond.message cond) (Rule.message rule)))
    else if bounds_fail (toNumber value) cond
    then Some (failure isSoft (str_or (Cond.message cond) (Rule.message rule)))
    else None
  else None.

Fixpoint check_conditions (rule : Rule.t) (isSoft : bool) (value : any)
    (allData : gmap string any) (conds : list Cond.t) : option ValidationResult.t :=
  match conds with
  | [] => None
  | cond :: rest =>
      match check_condition rule isSoft value allData cond with
      | Some res => Some res
      | None => check_conditions rule isSoft value allData rest
      end
  end.

(** [auditLog.some(entry => entry.formData[field.id] === value)] *)
Definition exists_in_log (auditLog : list AuditEntry.t) (id : string) (value : any) : bool :=
  existsb (fun entry => strict_eq (get (AuditEntry.formData entry) id) value) auditLog.

(** One case of the [switch]: [Returned (Some res)] when the case returns
    [res] from [validateField], [Returned None] when it breaks out to the
    next rule, [Thrown] when it throws. *)
Definition check_rule (field : Field.t) (value : any) (allData : gmap string any)
    (auditLog : list AuditEntry.t) (rule : Rule.t)
  : outcome (option ValidationResult.t) :=
  let isSoft := bool_decide (Field.category field = soft) in
  let fail_if (b : bool) :=
    Returned (if b then Some (failure isSoft (Rule.message rule)) else None) in
  match Rule.type rule with
  | required =>
      fail_if (strict_eq value VUndefined || strict_eq value VNull
               || strict_eq value (VStr "") || strict_eq value (VBool false))
  | minLength =>
      match value with
      | VStr s =>
          fail_if (num_lt (int (Z.of_nat (String.length s)))
                     (toNumber (js_or (Rule.value rule) (VNum (int 0)))))
      | _ => Returned None
      end
  | noNumbers =>
      match value with
      | VStr s => fail_if (RegExp_test digit_re s)
      | _ => Returned None
      end
  | emailFormat =>
      match value with
      | VStr s => fail_if (negb (RegExp_test email_re s))
      | _ => Returned None
      end
  | unique =>
      match Rule.checkStorage rule, value with
      | Some true, VStr _ => fail_if (exists_in_log auditLog (Field.id field) value)
      | _, _ => Returned None
      end
  | pattern =>
      match value, Rule.pattern rule with
      | VStr s, Some p =>
          if negb (String.eqb p "") then
            match RegExp_compile p with
            | Some test => fail_if (negb (test s))
            | None => Thrown (SyntaxError p)
            end
          else Returned None
      | _, _ => Returned None
      end
  | ageRange =>
      if truthy value then
        let age := ageInYears value in
        fail_if (num_lt age (num_or (Rule.min rule) (int 0))
                 || num_gt age (num_or (Rule.max rule) (int 999)))
      else Returned None
  | range =>
      let numValue := toNumber value in
      fail_if (num_lt numValue (num_or (Rule.min rule) NegInfinity)
               || num_gt numValue (num_or (Rule.max rule) Infinity))
  | minValue =>
      fail_if (num_lt (toNumber value) (toNumber (js_or (Rule.value rule) (VNum (int 0)))))
  | notEquals =>
      Returned
        (if strict_eq value (Rule.value rule)
         then Some {| ValidationResult.valid := false;
                      ValidationResult.error := of_opt (Rule.message rule);
                      ValidationResult.isSoft := isSoft;
                      ValidationResult.blockSubmission := Rule.blockSubmission rule |}
         else None)
  | exactLength =>
      match value with
      | VStr s =>
          fail_if (negb (strict_eq (VNum (int (Z.of_nat (String.length s)))) (Rule.value rule)))
      | _ => Returned None
      end
  | conditional =>
      match Rule.conditions rule with
      | Some conds => Returned (check_conditions rule isSoft value allData conds)
      | None => Returned None
      end
  end.

(** The loop over [field.validations]. *)
Fixpoint run_rules (field : Field.t) (value : any) (allData : gmap string any)
    (auditLog : list AuditEntry.t) (rules : list Rule.t)
  : outcome ValidationResult.t :=
  match rules with
  | [] =>
      Returned
        {| ValidationResult.valid := true;
           ValidationResult.error := VNull;
           ValidationResult.isSoft := bool_decide (Field.category field = soft);
           ValidationResult.blockSubmission := None |}
  | rule :: rest =>
      match check_rule field value allData auditLog rule with
      | Thrown e => Thrown e
      | Returned (Some res) => Returned res
      | Returned None => run_rules field value allData auditLog rest
      end
  end.

Definition validateField (field : Field.t) (value : any) (allData : gmap string any)
    (auditLog : list AuditEntry.t) : outcome ValidationResult.t :=
  run_rules field value allData auditLog (Field.validations field).

(** The validation effect of [App.tsx]: every field of the schema is
    evaluated on the record and the failures are stored under the field
    ids.  [collect_errors] is the [forEach] loop with the [errors] object
    built so far. *)
Fixpoint collect_errors (formData : gmap string any) (auditLog : list AuditEntry.t)
    (errors : gmap string ValidationResult.t) (schema : list Field.t)
  : outcome (gmap string ValidationResult.t) :=
  match schema with
  | [] => Returned errors
  | field :: rest =>
      match validateField field (get formData (Field.id field)) formData auditLog with
      | Thrown e => Thrown e
      | Returned result =>
          collect_errors formData auditLog
            (if negb (ValidationResult.valid result)
             then <[Field.id field := result]> errors
             else errors)
            rest
      end
  end.

Definition validationEffect (schema : list Field.t) (formData : gmap string any)
    (auditLog : list AuditEntry.t) : outcome (gmap string ValidationResult.t) :=
  collect_errors formData auditLog ∅ schema.

End Evaluator.

(** ** The rationale gate ([checkRationale]) *)

(** [o || d] for an optional whole number. *)
Definition z_or (o : option Z) (d : Z) : Z :=
  match o with
  | Some n => if n =? 0 then d else n
  | None => d
  end.

(** [field.rationaleKeywords.some(kw => lowerRationale.includes(kw.toLowerCase()))] *)
Definition hasKeyword (keywords : list string) (lowerRationale : string) : bool :=
  existsb (fun kw => includes lowerRationale (toLowerCase kw)) keywords.

Definition checkRationale (field : Field.t) (rationale : string) : RationaleResult.t :=
  let minLength := z_or (Field.rationaleMinLength field) 30 in
  if String.eqb rationale "" || (Z.of_nat (String.length rationale) <? minLength) then
    {| RationaleResult.valid := false;
       RationaleResult.error :=
         VStr ("Rationale must be at least " +:+ pretty minLength +:+ " characters.") |}
  else
    match Field.rationaleKeywords field with
    | Some (kw :: kws) =>
        if hasKeyword (kw :: kws) (toLowerCase rationale) then
          {| RationaleResult.valid := true; RationaleResult.error := VNull |}
        else
          {| RationaleResult.valid := false;
             RationaleResult.error :=
               VStr ("Rationale must include one of the following keywords: "
                     +:+ join ", " (kw :: kws)) |}
    | _ => {| RationaleResult.valid := true; RationaleResult.error := VNull |}
    end.

(** ** The submission gate ([App.tsx]) *)

(** [rulesConfig.fields.find(f => f.id === id)] *)
Definition find_field (schema : list Field.t) (id : string) : option Field.t :=
  List.find (fun f => String.eqb (Field.id f) id) schema.

(** The callback of [Object.entries(validationErrors).some(...)]. *)
Definition blocks (schema : list Field.t) (exceptions : gmap string Exception)
    (entry : string * ValidationResult.t) : bool :=
  let '(id, result) := entry in
  match find_field schema id with
  | None => false
  | Some field =>
      if bool_decide (Field.category field = strict) && negb (ValidationResult.valid result)
      then true
      else if bool_decide (Field.category field = soft) && negb (ValidationResult.valid result)
              && match exceptions !! id with
                 | Some exc =>
                     negb (active exc)
                     || negb (RationaleResult.valid (checkRationale field (rationale exc)))
                 | None => true
                 end
      then true
      else if bool_decide (ValidationResult.blockSubmission result = Some true) then true
      else false
  end.

Definition hasStrictErrors (schema : list Field.t)
    (validationErrors : gmap string ValidationResult.t)
    (exceptions : gmap string Exception) : bool :=
  existsb (blocks schema exceptions) (map_to_list validationErrors).

(** The callback of [v => v.type === 'required'] lifted to a field. *)
Definition isRequired (f : Field.t) : bool :=
  existsb (fun v => bool_decide (Rule.type v = required)) (Field.validations f).

Definition missingRequired (schema : list Field.t) (formData : gmap string any) : bool :=
  existsb
    (fun f =>
       let val := get formData (Field.id f) in
       isRequired f
       && (strict_eq val VUndefined || strict_eq val VNull || strict_eq val (VStr "")))
    schema.

Definition canSubmit (schema : list Field.t)
    (validationErrors : gmap string ValidationResult.t)
    (exceptions : gmap string Exception) (formData : gmap string any) : bool :=
  negb (hasStrictErrors schema validationErrors exceptions)
  && negb (missingRequired schema formData).

(** [Object.values(state.exceptions).filter(e => e.active).length] *)
Definition activeExceptionsCount (exceptions : gmap string Exception) : nat :=
  length (List.filter active (map snd (map_to_list exceptions))).

Definition isFlagged (config : RulesConfig) (exceptions : gmap string Exception) : bool :=
  Z.of_nat (activeExceptionsCount exceptions) >? maxExceptions (systemRules config).

(** ** The shipped schema ([rulesConfig])

    The messages are copied as they are; the two that hold a character above
    U+00FF carry it as the bytes of the source file, which no claim reads. *)

Definition simple_rule (type : RuleType) (message : string) : Rule.t :=
  {| Rule.type := type; Rule.message := Some message; Rule.value := VUndefined;
     Rule.pattern := None; Rule.min := None; Rule.max := None;
     Rule.checkStorage := None; Rule.blockSubmission := None;
     Rule.bannerMessage := None; Rule.conditions := None |}.

Definition value_rule (type : RuleType) (value : any) (message : string) : Rule.t :=
  {| Rule.type := type; Rule.message := Some message; Rule.value := value;
     Rule.pattern := None; Rule.min := None; Rule.max := None;
     Rule.checkStorage := None; Rule.blockSubmission := None;
     Rule.bannerMessage := None; Rule.conditions := None |}.

Definition pattern_rule (type : RuleType) (pattern message : string) : Rule.t :=
  {| Rule.type := type; Rule.message := Some message; Rule.value := VUndefined;
     Rule.pattern := Some pattern; Rule.min := None; Rule.max := None;
     Rule.checkStorage := None; Rule.blockSubmission := None;
     Rule.bannerMessage := None; Rule.conditions := None |}.

Definition bounds_rule (type : RuleType) (min max : Z) (message : string) : Rule.t :=
  {| Rule.type := type; Rule.message := Some message; Rule.value := VUndefined;
     Rule.pattern := None; Rule.min := Some (int min); Rule.max := Some (int max);
     Rule.checkStorage := None; Rule.blockSubmission := None;
     Rule.bannerMessage := None; Rule.conditions := None |}.

Definition conditional_rule (conditions : list Cond.t) : Rule.t :=
  {| Rule.type := conditional; Rule.message := None; Rule.value := VUndefined;
     Rule.pattern := None; Rule.min := None; Rule.max := None;
     Rule.checkStorage := None; Rule.blockSubmission := None;
     Rule.bannerMessage := None; Rule.conditions := Some conditions |}.

Definition unique_rule : Rule.t :=
  {| Rule.type := unique; Rule.message := Some "This email is already registered";
     Rule.value := VUndefined; Rule.pattern := None; Rule.min := None; Rule.max := None;
     Rule.checkStorage := Some true; Rule.blockSubmission := None;
     Rule.bannerMessage := None; Rule.conditions := None |}.

Definition rejected_rule : Rule.t :=
  {| Rule.type := notEquals; Rule.message := None; Rule.value := VStr "Rejected";
     Rule.pattern := None; Rule.min := None; Rule.max := None;
     Rule.checkStorage := None; Rule.blockSubmission := Some true;
     Rule.bannerMessage := Some "Rejected candidates cannot be enrolled";
     Rule.conditions := None |}.

Definition strict_field (id label : string) (type : InputType)
    (options : option (list string)) (validations : list Rule.t) : Field.t :=
  {| Field.id := id; Field.label := label; Field.type := type;
     Field.category := strict; Field.options := options; Field.subType := None;
     Field.validations := validations; Field.allowException := false;
     Field.rationaleKeywords := None; Field.rationaleMinLength := None |}.

Definition soft_field (id label : string) (type : InputType)
    (subType : option InputType) (validations : list Rule.t) : Field.t :=
  {| Field.id := id; Field.label := label; Field.type := type;
     Field.category := soft; Field.options := None; Field.subType := subType;
     Field.validations := validations; Field.allowException := true;
     Field.rationaleKeywords :=
       Some ["approved by"; "special case"; "documentation pending"; "waiver granted"];
     Field.rationaleMinLength := Some 30 |}.

Definition fullName : Field.t :=
  strict_field "fullName" "Full Name" text_input None
    [ simple_rule required "Full name is required";
      value_rule minLength (VNum (int 2)) "Name must be at least 2 characters";
      pattern_rule noNumbers "^[^0-9]*$" "Name cannot contain numbers" ].

Definition email : Field.t :=
  strict_field "email" "Email Address" email_input None
    [ simple_rule required "Email is required";
      simple_rule emailFormat "Enter a valid email address (e.g., name@company.com)";
      unique_rule ].

Definition phone : Field.t :=
  strict_field "phone" "Phone Number" tel_input None
    [ simple_rule required "Phone number is required";
      pattern_rule pattern "^[6-9]\d{9}$"
        "Enter 10-digit Indian mobile number starting with 6-9" ].

Definition dob : Field.t :=
  soft_field "dob" "Date of Birth" date_input None
    [ simple_rule required "Date of birth is required";
      bounds_rule ageRange 18 35 "Candidate must be 18-35 years old" ].

Definition qualification : Field.t :=
  strict_field "qualification" "Highest Qualification" select_input
    (Some ["B.Tech"; "B.E."; "B.Sc"; "BCA"; "M.Tech"; "M.Sc"; "MCA"; "MBA"])
    [ simple_rule required "Please select a qualification" ].

Definition graduationYear : Field.t :=
  soft_field "graduationYear" "Graduation Year" number_input None
    [ simple_rule required "Graduation year is required";
      bounds_rule range 2015 2025 "Graduation year must be between 2015-2025" ].

Definition scoreValue : Field.t :=
  soft_field "scoreValue" "Percentage / CGPA" number_input (Some toggle_input)
    [ simple_rule required "Score is required";
      conditional_rule
        [ {| Cond.when := "scoreType"; Cond.is_ := VStr "percentage"; Cond.in_ := None;
             Cond.requires := None; Cond.min := Some (int 60); Cond.max := None;
             Cond.message := Some "Percentage must be ≥ 60%" |};
          {| Cond.when := "scoreType"; Cond.is_ := VStr "cgpa"; Cond.in_ := None;
             Cond.requires := None; Cond.min := Some (int 6); Cond.max := Some (int 10);
             Cond.message := Some "CGPA must be ≥ 6.0 on 10-point scale" |} ] ].

Definition screeningScore : Field.t :=
  soft_field "screeningScore" "Screening Test Score" number_input None
    [ simple_rule required "Screening score is required";
      bounds_rule range 0 100 "Score must be 0-100";
      value_rule minValue (VNum (int 40)) "Minimum qualifying score is 40/100" ].

Definition interviewStatus : Field.t :=
  strict_field "interviewStatus" "Interview Status" select_input
    (Some ["Cleared"; "Waitlisted"; "Rejected"])
    [ simple_rule required "Interview status is required";
      rejected_rule ].

Definition aadhaar : Field.t :=
  strict_field "aadhaar" "Aadhaar Number" text_input None
    [ simple_rule required "Aadhaar number is required";
      value_rule exactLength (VNum (int 12)) "Aadhaar must be exactly 12 digits";
      pattern_rule pattern "^\d{12}$" "Aadhaar must contain only numbers" ].

Definition offerLetterSent : Field.t :=
  strict_field "offerLetterSent" "Offer Letter Sent" toggle_input None
    [ conditional_rule
        [ {| Cond.when := "offerLetterSent"; Cond.is_ := VBool true;
             Cond.in_ := Some [VStr "Cleared"; VStr "Waitlisted"];
             Cond.requires := Some "interviewStatus"; Cond.min := None; Cond.max := None;
             Cond.message :=
               Some "Offer letter can only be sent if interview is Cleared or Waitlisted" |} ] ].

Definition rulesConfig : RulesConfig :=
  {| fields :=
       [ fullName; email; phone; dob; qualification; graduationYear; scoreValue;
         screeningScore; interviewStatus; aadhaar; offerLetterSent ];
     systemRules :=
       {| maxExceptions := 2;
          flagMessage :=
            "This candidate has more than 2 exceptions. Entry will be flagged for manager review." |} |}.

(** * The statements of the specification

    Each predicate below follows the words of the specification, not the
    code; the theorems compare them with the functions above. *)

(** ** The rationale gate in words *)

(** Two strings are equal up to letter case. *)
Definition ci_equal (a b : string) : Prop := toLowerCase a = toLowerCase b.

(** [s] contains [kw] as a substring, compared case-insensitively. *)
Definition contains_ci (s kw : string) : Prop :=
  exists pre mid post, s = pre +:+ mid +:+ post /\ ci_equal mid kw.

(** The field declares keywords and the rationale contains none of them. *)
Definition lacks_keywords (field : Field.t) (rationale : string) : Prop :=
  exists kws, Field.rationaleKeywords field = Some kws /\ kws <> []
              /\ forall kw, In kw kws -> ~ contains_ci rationale kw.

(** The rejection condition as the specification words it: the minimum
    length is [rationaleMinLength], and 30 when the field declares none. *)
Definition rationale_rejected_as_stated (field : Field.t) (rationale : string) : Prop :=
  rationale = ""
  \/ Z.of_nat (String.length rationale) < default 30 (Field.rationaleMinLength field)
  \/ lacks_keywords field rationale.

(** The minimum length the code enforces: [rationaleMinLength], and 30 when
    the field declares none or declares 0. *)
Definition required_length (field : Field.t) (n : Z) : Prop :=
  match Field.rationaleMinLength field with
  | None => n = 30
  | Some m => (m = 0 /\ n = 30) \/ (m <> 0 /\ n = m)
  end.

Definition rationale_rejected (field : Field.t) (rationale : string) : Prop :=
  rationale = ""
  \/ (exists n, required_length field n /\ Z.of_nat (String.length rationale) < n)
  \/ lacks_keywords field rationale.

(** A field that asks for no minimum length and no keyword. *)
Definition free_text_field : Field.t :=
  {| Field.id := "remarks"; Field.label := "Remarks"; Field.type := text_input;
     Field.category := soft; Field.options := None; Field.subType := None;
     Field.validations := []; Field.allowException := true;
     Field.rationaleKeywords := None; Field.rationaleMinLength := Some 0 |}.

(** ** Sample exception states *)

Definition on (r : string) : Exception := {| active := true; rationale := r |}.
Definition off (r : string) : Exception := {| active := false; rationale := r |}.

(** The exception entries recorded as active. *)
Definition active_entries (exceptions : gmap string Exception) : gmap string Exception :=
  filter (fun kv => active kv.2 = true) exceptions.

(** ** Regular languages *)

(** The words a regular expression denotes. *)
Inductive lang : regex -> list ascii -> Prop :=
  | lang_eps : lang REps []
  | lang_set p c : p c = true -> lang (RSet p) [c]
  | lang_seq r1 r2 w1 w2 : lang r1 w1 -> lang r2 w2 -> lang (RSeq r1 r2) (w1 ++ w2)
  | lang_alt_l r1 r2 w : lang r1 w -> lang (RAlt r1 r2) w
  | lang_alt_r r1 r2 w : lang r2 w -> lang (RAlt r1 r2) w
  | lang_star_nil r : lang (RStar r) []
  | lang_star_cons r w1 w2 : lang r w1 -> lang (RStar r) w2 -> lang (RStar r) (w1 ++ w2).

(** ** The e-mail shape in words *)

(** A non-empty run of characters without white space and without [@]. *)
Definition email_part (s : string) : Prop :=
  s <> "" /\ Forall (fun c => is_space c = false /\ c <> "@"%char) (chars s).

(** [local@domain.tld]: a local part, an [@], and a domain with at least one
    dot in it, none of the parts holding white space or a further [@]. *)
Definition email_shape (s : string) : Prop :=
  exists local domain tld,
    s = local +:+ "@" +:+ domain +:+ "." +:+ tld
    /\ email_part local /\ email_part domain /\ email_part tld.

(** ** Verdicts in words *)

(** The verdict of a field all of whose rules pass. *)
Definition valid_verdict (field : Field.t) : ValidationResult.t :=
  {| ValidationResult.valid := true;
     ValidationResult.error := VNull;
     ValidationResult.isSoft := bool_decide (Field.category field = soft);
     ValidationResult.blockSubmission := None |}.

(** The verdict carries the message of the rule, read as the specification
    words it: the [message] property of the rule. *)
Definition carries_rule_message (rule : Rule.t) (res : ValidationResult.t) : Prop :=
  ValidationResult.error res = of_opt (Rule.message rule).

(** A sub-condition fails on the value: it applies to the record, and its
    [requires] check or its [min]/[max] check fails. *)
Definition condition_fails (value : any) (allData : gmap string any) (cond : Cond.t) : Prop :=
  applies allData cond = true
  /\ (requires_fails allData cond = true \/ bounds_fail (toNumber value) cond = true).

(** The sub-condition is the first of the list to fail on the value. *)
Definition first_failing_condition (value : any) (allData : gmap string any)
    (conds : list Cond.t) (cond : Cond.t) : Prop :=
  exists pre post,
    conds = pre ++ cond :: post
    /\ (forall c, In c pre -> ~ condition_fails value allData c)
    /\ condition_fails value allData cond.

(** The message the code reports for a rule that fails on the value: the
    [message] of the rule, and for a [conditional] rule the [message] of the
    first failing sub-condition when it has a non-empty one, else the
    [message] of the rule. *)
Definition reports_message_of (value : any) (allData : gmap string any) (rule : Rule.t)
    (res : ValidationResult.t) : Prop :=
  match Rule.type rule with
  | conditional =>
      exists conds cond,
        Rule.conditions rule = Some conds
        /\ first_failing_condition value allData conds cond
        /\ ValidationResult.error res = of_opt (str_or (Cond.message cond) (Rule.message rule))
  | _ => ValidationResult.error res = of_opt (Rule.message rule)
  end.

(** Every non-empty pattern of the [pattern] rules of a field is accepted by
    the regular expression constructor. *)
Definition patterns_compile (RegExp_compile : string -> option (string -> bool))
    (field : Field.t) : Prop :=
  forall rule p,
    In rule (Field.validations field) -> Rule.type rule = pattern ->
    Rule.pattern rule = Some p -> p <> "" -> is_Some (RegExp_compile p).

(** A value has the e-mail shape: it is a string that has it. *)
Definition has_email_shape (value : any) : Prop :=
  exists s, value = VStr s /\ email_shape s.

(** Some entry of the history records, for the field id, a value strictly
    equal to the current one. *)
Definition recorded_before (auditLog : list AuditEntry.t) (id : string) (value : any) : Prop :=
  exists entry, In entry auditLog /\ strict_eq (get (AuditEntry.formData entry) id) value = true.

(** ** Sample data *)

(** A stand-in for [differenceInYears] where no [ageRange] rule is reached. *)
Definition age_unknown : any -> number := fun _ => NaN.

Definition one_rule_field (category : Category) (id : string) (rule : Rule.t) : Field.t :=
  {| Field.id := id; Field.label := id; Field.type := text_input;
     Field.category := category; Field.options := None; Field.subType := None;
     Field.validations := [rule]; Field.allowException := true;
     Field.rationaleKeywords := None; Field.rationaleMinLength := None |}.

(** A field whose only rule carries a pattern with an unterminated group. *)
Definition broken_pattern_field : Field.t :=
  one_rule_field strict "code" (pattern_rule pattern "(" "Invalid code").

Definition contact_field : Field.t :=
  one_rule_field strict "contact" (simple_rule emailFormat "Enter a valid email address").

(** A numeric field with a [unique] rule that checks the history. *)
Definition serial_field : Field.t :=
  one_rule_field strict "serial" unique_rule.

(** A text field whose [unique] rule is followed by a length rule. *)
Definition handle_field : Field.t :=
  {| Field.id := "handle"; Field.label := "Handle"; Field.type := text_input;
     Field.category := strict; Field.options := None; Field.subType := None;
     Field.validations := [unique_rule; value_rule minLength (VNum (int 3)) "Too short"];
     Field.allowException := false;
     Field.rationaleKeywords := None; Field.rationaleMinLength := None |}.

Definition entry_of (formData : gmap string any) : AuditEntry.t :=
  {| AuditEntry.id := "1"; AuditEntry.timestamp := "2024-01-01T00:00:00.000Z";
     AuditEntry.formData := formData; AuditEntry.exceptions := ∅;
     AuditEntry.exceptionCount := 0; AuditEntry.isFlagged := false |}.

Definition nickname_field : Field.t :=
  {| Field.id := "nickname"; Field.label := "Nickname"; Field.type := text_input;
     Field.category := soft; Field.options := None; Field.subType := None;
     Field.validations :=
       [ simple_rule required "Nickname is required";
         value_rule minLength (VNum (int 2)) "Nickname must be at least 2 characters" ];
     Field.allowException := true;
     Field.rationaleKeywords := None; Field.rationaleMinLength := None |}.

(** A soft field whose [minValue] rule carries the [blockSubmission] flag. *)
Definition flagged_minimum_rule : Rule.t :=
  {| Rule.type := minValue; Rule.message := Some "Minimum score is 40";
     Rule.value := VNum (int 40); Rule.pattern := None; Rule.min := None; Rule.max := None;
     Rule.checkStorage := None; Rule.blockSubmission := Some true;
     Rule.bannerMessage := None; Rule.conditions := None |}.

Definition aptitude_field : Field.t := one_rule_field soft "aptitude" flagged_minimum_rule.

(** A soft field whose only rule is the flagged [notEquals] rule. *)
Definition decision_field : Field.t := one_rule_field soft "decision" rejected_rule.

(** A soft toggle that is required. *)
Definition consent_field : Field.t :=
  one_rule_field soft "consent" (simple_rule required "Consent is required").

(** ** The submission gate in words *)

(** No exception is active for the field id. *)
Definition no_active_exception (exceptions : gmap string Exception) (id : string) : Prop :=
  forall exc, exceptions !! id = Some exc -> active exc = false.

(** The active exception of the field id has a rationale that fails the
    rationale gate. *)
Definition rationale_fails (exceptions : gmap string Exception) (field : Field.t)
    (id : string) : Prop :=
  exists exc, exceptions !! id = Some exc /\ active exc = true
              /\ RationaleResult.valid (checkRationale field (rationale exc)) = false.

(** The category clause of the gate for an invalid verdict. *)
Definition category_blocks (exceptions : gmap string Exception) (field : Field.t)
    (id : string) : Prop :=
  Field.category field = strict
  \/ (Field.category field = soft
      /\ (no_active_exception exceptions id \/ rationale_fails exceptions field id)).



(** [hasBlockingFailure] as the code computes it: the [blockSubmission] flag
    of a verdict blocks whether or not the verdict is invalid. *)
Definition hasBlockingFailure (schema : list Field.t)
    (results : gmap string ValidationResult.t) (exceptions : gmap string Exception) : Prop :=
  exists id result field,
    results !! id = Some result /\ find_field schema id = Some field
    /\ (ValidationResult.blockSubmission result = Some true
        \/ (ValidationResult.valid result = false /\ category_blocks exceptions field id)).

(** The record holds nothing for the id: [undefined], [null] or [""]. *)
Definition holds_nothing (formData : gmap string any) (id : string) : Prop :=
  get formData id = VUndefined \/ get formData id = VNull \/ get formData id = VStr "".

Definition has_required_rule (field : Field.t) : Prop :=
  exists rule, In rule (Field.validations field) /\ Rule.type rule = required.

Definition missing_required (schema : list Field.t) (formData : gmap string any) : Prop :=
  exists field, In field schema /\ has_required_rule field
                /\ holds_nothing formData (Field.id field).

(** The rule is the first rule of the field to fail on the value. *)
Definition fails_first (RegExp_compile : string -> option (string -> bool))
    (ageInYears : any -> number) (field : Field.t) (value : any)
    (allData : gmap string any) (auditLog : list AuditEntry.t) (rule : Rule.t) : Prop :=
  exists pre post res,
    Field.validations field = pre ++ rule :: post
    /\ (forall r, In r pre ->
          check_rule RegExp_compile ageInYears field value allData auditLog r = Returned None)
    /\ check_rule RegExp_compile ageInYears field value allData auditLog rule
       = Returned (Some res).

(** * The application state and its handlers ([App.tsx])

    The state transitions of the component, as functions of the previous
    state.  An [Exception] stored without an [active] property reads as
    [active = false]: the code only ever tests the truthiness of [active]. *)

Inductive View := form_view | audit_view | dashboard_view.

Inductive Theme := light | dark.

Module AppState.
Record t := {
  formData : gmap string any;
  exceptions : gmap string Exception;
  auditLog : list AuditEntry.t;
  currentView : View;
  theme : Theme
}.
End AppState.

(** The record of an empty form: [{ scoreType: 'percentage', offerLetterSent: false }]. *)
Definition blank_form : gmap string any :=
  {[ "scoreType" := VStr "percentage"; "offerLetterSent" := VBool false ]}.

(** The initial state when nothing was saved. *)
Definition initial_state : AppState.t :=
  {| AppState.formData := blank_form; AppState.exceptions := ∅;
     AppState.auditLog := []; AppState.currentView := form_view;
     AppState.theme := light |}.

Definition handleInputChange (id : string) (value : any) (prev : AppState.t) : AppState.t :=
  {| AppState.formData := <[id := value]> (AppState.formData prev);
     AppState.exceptions := AppState.exceptions prev;
     AppState.auditLog := AppState.auditLog prev;
     AppState.currentView := AppState.currentView prev;
     AppState.theme := AppState.theme prev |}.

(** [exceptions[id]?.active], read for its truthiness. *)
Definition active_at (exceptions : gmap string Exception) (id : string) : bool :=
  match exceptions !! id with
  | Some exc => active exc
  | None => false
  end.

(** [exceptions[id]?.rationale || ''] *)
Definition rationale_at (exceptions : gmap string Exception) (id : string) : string :=
  match exceptions !! id with
  | Some exc => rationale exc
  | None => ""
  end.

(** The state update of the draft restoration: the saved form and the saved
    exceptions are spread over the ones of the state. *)
Definition restoreDraft (draftForm : gmap string any)
    (draftExceptions : gmap string Exception) (prev : AppState.t) : AppState.t :=
  {| AppState.formData := draftForm ∪ AppState.formData prev;
     AppState.exceptions := draftExceptions ∪ AppState.exceptions prev;
     AppState.auditLog := AppState.auditLog prev;
     AppState.currentView := AppState.currentView prev;
     AppState.theme := AppState.theme prev |}.

(** The [exceptions] object built by [toggleException]. *)
Definition toggled (id : string) (exceptions : gmap string Exception) : gmap string Exception :=
  <[id := {| active := negb (active_at exceptions id);
             rationale := rationale_at exceptions id |}]> exceptions.

Definition toggleException (id : string) (prev : AppState.t) : AppState.t :=
  {| AppState.formData := AppState.formData prev;
     AppState.exceptions := toggled id (AppState.exceptions prev);
     AppState.auditLog := AppState.auditLog prev;
     AppState.currentView := AppState.currentView prev;
     AppState.theme := AppState.theme prev |}.

(** The [exceptions] object built by [handleRationaleChange]:
    [{ ...exceptions[id], rationale }] under [id]. *)
Definition with_rationale (id rationale : string) (exceptions : gmap string Exception)
  : gmap string Exception :=
  <[id := {| active := active_at exceptions id; rationale := rationale |}]> exceptions.

Definition handleRationaleChange (id rationale : string) (prev : AppState.t) : AppState.t :=
  {| AppState.formData := AppState.formData prev;
     AppState.exceptions := with_rationale id rationale (AppState.exceptions prev);
     AppState.auditLog := AppState.auditLog prev;
     AppState.currentView := AppState.currentView prev;
     AppState.theme := AppState.theme prev |}.

(** The entry [handleSubmit] builds from the state it was created in; [id] is
    the value of [crypto.randomUUID()] and [timestamp] the one of
    [new Date().toISOString()]. *)
Definition newEntry (config : RulesConfig) (state : AppState.t) (id timestamp : string)
  : AuditEntry.t :=
  {| AuditEntry.id := id;
     AuditEntry.timestamp := timestamp;
     AuditEntry.formData := AppState.formData state;
     AuditEntry.exceptions := AppState.exceptions state;
     AuditEntry.exceptionCount := activeExceptionsCount (AppState.exceptions state);
     AuditEntry.isFlagged := isFlagged config (AppState.exceptions state) |}.

(** The state update of [handleSubmit]: the entry comes from the state the
    handler closed over, the log from the state at the time of the update. *)
Definition handleSubmit (config : RulesConfig) (state : AppState.t) (id timestamp : string)
    (prev : AppState.t) : AppState.t :=
  {| AppState.formData := blank_form;
     AppState.exceptions := ∅;
     AppState.auditLog := newEntry config state id timestamp :: AppState.auditLog prev;
     AppState.currentView := audit_view;
     AppState.theme := AppState.theme prev |}.

Definition deleteEntry (id : string) (prev : AppState.t) : AppState.t :=
  {| AppState.formData := AppState.formData prev;
     AppState.exceptions := AppState.exceptions prev;
     AppState.auditLog :=
       List.filter (fun e => negb (String.eqb (AuditEntry.id e) id)) (AppState.auditLog prev);
     AppState.currentView := AppState.currentView prev;
     AppState.theme := AppState.theme prev |}.

(** [clearAllData]; [confirmed] is the answer of the [confirm] dialog. *)
Definition clearAllData (confirmed : bool) (prev : AppState.t) : AppState.t :=
  if confirmed then
    {| AppState.formData := AppState.formData prev;
       AppState.exceptions := AppState.exceptions prev;
       AppState.auditLog := [];
       AppState.currentView := AppState.currentView prev;
       AppState.theme := AppState.theme prev |}
  else prev.

(** ** The audit log table *)

(** [filterExceptionCount]: ['all'] or a number. *)
Inductive CountFilter :=
  | all_entries
  | by_count (n : number).

(** [matchesFilter] of the table. *)
Definition matchesFilter (filterExceptionCount : CountFilter) (e : AuditEntry.t) : bool :=
  match filterExceptionCount with
  | all_entries => true
  | by_count n =>
      if num_eq n (int 3) then (3 <=? AuditEntry.exceptionCount e)%nat
      else if num_eq n (int 1) then (1 <=? AuditEntry.exceptionCount e)%nat
      else (AuditEntry.exceptionCount e =? 0)%nat
  end.

(** [v?.toLowerCase().includes(searchQuery.toLowerCase())], read for its
    truthiness: [undefined] (falsy) on [undefined] and [null], the search
    result on a string, and [None] on any other value, where the call of
    [toLowerCase] throws a TypeError. *)
Definition lower_includes (v : any) (searchQuery : string) : option bool :=
  match v with
  | VUndefined | VNull => Some false
  | VStr s => Some (includes (toLowerCase s) (toLowerCase searchQuery))
  | _ => None
  end.

(** [matchesSearch] of the table; [None] when it throws. *)
Definition matchesSearch (searchQuery : string) (e : AuditEntry.t) : option bool :=
  match lower_includes (get (AuditEntry.formData e) "fullName") searchQuery with
  | None => None
  | Some true => Some true
  | Some false => lower_includes (get (AuditEntry.formData e) "email") searchQuery
  end.

(** The rows of the table: [state.auditLog.filter(...)]; [None] when the
    callback throws on an entry. *)
Fixpoint visibleEntries (searchQuery : string) (filterExceptionCount : CountFilter)
    (auditLog : list AuditEntry.t) : option (list AuditEntry.t) :=
  match auditLog with
  | [] => Some []
  | e :: rest =>
      match matchesSearch searchQuery e with
      | None => None
      | Some m =>
          match visibleEntries searchQuery filterExceptionCount rest with
          | None => None
          | Some rows =>
              Some (if m && matchesFilter filterExceptionCount e then e :: rows else rows)
          end
      end
  end.

(** ** The dashboard *)

(** [auditLog.filter(e => e.isFlagged).length] *)
Definition flaggedEntries (auditLog : list AuditEntry.t) : nat :=
  length (List.filter AuditEntry.isFlagged auditLog).

(** [auditLog.filter(e => e.exceptionCount === k).length] *)
Definition exceptionBucket (k : nat) (auditLog : list AuditEntry.t) : nat :=
  length (List.filter (fun e => (AuditEntry.exceptionCount e =? k)%nat) auditLog).

(** [auditLog.filter(e => e.exceptionCount >= 3).length] *)
Definition exceptionBucket3plus (auditLog : list AuditEntry.t) : nat :=
  length (List.filter (fun e => (3 <=? AuditEntry.exceptionCount e)%nat) auditLog).

(** [auditLog.filter(e => e.exceptionCount > 0).length], the numerator of the
    exception rate. *)
Definition entriesWithExceptions (auditLog : list AuditEntry.t) : nat :=
  length (List.filter (fun e => (0 <? AuditEntry.exceptionCount e)%nat) auditLog).

(** [auditLog.reduce((acc, e) => acc + e.exceptionCount, 0)] *)
Definition totalExceptions (auditLog : list AuditEntry.t) : nat :=
  fold_left (fun acc e => (acc + AuditEntry.exceptionCount e)%nat) auditLog 0%nat.

(** The data of the qualification chart: for every option of the
    [qualification] field the number of entries that recorded it, the
    options without an entry left out. *)
Definition qualificationMix (schema : list Field.t) (auditLog : list AuditEntry.t)
  : list (string * nat) :=
  match find_field schema "qualification" with
  | Some f =>
      match Field.options f with
      | Some opts =>
          List.filter (fun d => (0 <? snd d)%nat)
            (map (fun opt =>
                    (opt,
                     length (List.filter
                               (fun e => strict_eq (get (AuditEntry.formData e) "qualification")
                                           (VStr opt))
                               auditLog)))
               opts)
      | None => []
      end
  | None => []
  end.

(** ** Statements about the handlers *)

(** A value the table can search: a string, [undefined] or [null]. *)
Definition searchable (v : any) : Prop :=
  match v with
  | VStr _ | VUndefined | VNull => True
  | _ => False
  end.

(** [e.formData.fullName] and [e.formData.email] *)
Definition fullName_of (e : AuditEntry.t) : any := get (AuditEntry.formData e) "fullName".
Definition email_of (e : AuditEntry.t) : any := get (AuditEntry.formData e) "email".

(** The value is a string that contains the query, both compared in lower
    case. *)
Definition holds_query (v : any) (searchQuery : string) : Prop :=
  exists s, v = VStr s /\ contains_ci s searchQuery.

(** The count filter in words: ['all'] lets every entry through, [3] the
    entries with three exceptions or more, [1] the ones with one or more,
    any other number the ones with none. *)
Definition passes_count_filter (filterExceptionCount : CountFilter) (e : AuditEntry.t) : Prop :=
  match filterExceptionCount with
  | all_entries => True
  | by_count (Finite q) =>
      if Qeq_bool q 3 then (3 <= AuditEntry.exceptionCount e)%nat
      else if Qeq_bool q 1 then (1 <= AuditEntry.exceptionCount e)%nat
      else AuditEntry.exceptionCount e = 0%nat
  | by_count _ => AuditEntry.exceptionCount e = 0%nat
  end.

(** The entry is a row of the table: its name or its e-mail holds the query,
    and its number of exceptions passes the filter. *)
Definition shown (searchQuery : string) (filterExceptionCount : CountFilter)
    (e : AuditEntry.t) : Prop :=
  (holds_query (fullName_of e) searchQuery \/ holds_query (email_of e) searchQuery)
  /\ passes_count_filter filterExceptionCount e.

(** The callback throws on the entry: it calls [toLowerCase] on a name that
    is neither a string nor [undefined] nor [null], or, the name not holding
    the query, on such an e-mail. *)
Definition breaks_search (searchQuery : string) (e : AuditEntry.t) : Prop :=
  ~ searchable (fullName_of e)
  \/ (~ holds_query (fullName_of e) searchQuery /\ ~ searchable (email_of e)).

(** The stored count and flag of an entry agree with its snapshot of the
    exceptions and with the threshold of the configuration. *)
Definition consistent_entry (config : RulesConfig) (e : AuditEntry.t) : Prop :=
  AuditEntry.exceptionCount e = activeExceptionsCount (AuditEntry.exceptions e)
  /\ AuditEntry.isFlagged e
     = (Z.of_nat (AuditEntry.exceptionCount e) >? maxExceptions (systemRules config)).

(** The states reached from the initial one by the draft restoration and
    the handlers. *)
Inductive reachable (config : RulesConfig) : AppState.t -> Prop :=
  | reach_initial : reachable config initial_state
  | reach_draft s draftForm draftExceptions :
      reachable config s -> reachable config (restoreDraft draftForm draftExceptions s)
  | reach_input s id value :
      reachable config s -> reachable config (handleInputChange id value s)
  | reach_toggle s id :
      reachable config s -> reachable config (toggleException id s)
  | reach_rationale s id rationale :
      reachable config s -> reachable config (handleRationaleChange id rationale s)
  | reach_submit s s' id timestamp :
      reachable config s -> reachable config s' ->
      reachable config (handleSubmit config s id timestamp s')
  | reach_delete s id :
      reachable config s -> reachable config (deleteEntry id s)
  | reach_clear s confirmed :
      reachable config s -> reachable config (clearAllData confirmed s).

(** * Properties *)

(** ** Strings *)

Lemma append_cons (c : ascii) (a b : string) : String c a +:+ b = String c (a +:+ b).
Proof. reflexivity. Qed.

Lemma append_nil_l (s : string) : "" +:+ s = s.
Proof. reflexivity. Qed.

Lemma append_nil_r (s : string) : s +:+ "" = s.
Proof. induction s as [|c s IH]; [done | by rewrite append_cons, IH]. Qed.

Lemma append_assoc (a b c : string) : (a +:+ b) +:+ c = a +:+ b +:+ c.
Proof. induction a as [|x a IH]; [done | by rewrite !append_cons, IH]. Qed.

Lemma length_append (a b : string) :
  String.length (a +:+ b) = (String.length a + String.length b)%nat.
Proof.
  induction a as [|x a IH]; [done|].
  rewrite append_cons. cbn [String.length]. by rewrite IH.
Qed.

Lemma chars_append (a b : string) : chars (a +:+ b) = chars a ++ chars b.
Proof.
  induction a as [|x a IH]; [done|].
  rewrite append_cons. unfold chars in *. cbn [String.list_ascii_of_string].
  by rewrite IH.
Qed.

Lemma chars_inj (a b : string) : chars a = chars b -> a = b.
Proof.
  revert b. induction a as [|x a IH]; intros [|y b]; cbn; try done.
  intros [= -> H]. f_equal. by apply IH.
Qed.

Lemma chars_of_list (l : list ascii) : exists s, chars s = l.
Proof. exists (String.string_of_list_ascii l). apply String.list_ascii_of_string_of_list_ascii. Qed.

Lemma startsWith_spec (p s : string) :
  startsWith p s = true <-> exists post, s = p +:+ post.
Proof.
  revert s. induction p as [|a p IH]; intros s; cbn [startsWith].
  - split; [intros _; by exists s | done].
  - destruct s as [|b s].
    + split; [done | intros [post H]; discriminate].
    + rewrite andb_true_iff, Ascii.eqb_eq, IH. split.
      * intros [-> [post ->]]. by exists post.
      * intros [post H]. rewrite append_cons in H. injection H as -> ->.
        split; [done | by exists post].
Qed.

Lemma includes_spec (s sub : string) :
  includes s sub = true <-> exists pre post, s = pre +:+ sub +:+ post.
Proof.
  induction s as [|c s IH]; cbn [includes]; rewrite orb_true_iff, startsWith_spec.
  - split.
    + intros [[post H] | H]; [by exists "", post | done].
    + intros (pre & post & H). left. destruct pre; [by exists post | discriminate].
  - rewrite IH. split.
    + intros [[post H] | (pre & post & ->)]; [by exists "", post |].
      by exists (String c pre), post.
    + intros (pre & post & H). destruct pre as [|x pre].
      * left. by exists post.
      * rewrite append_cons in H. injection H as -> ->. right. by exists pre, post.
Qed.

(** On strings of code units up to U+00FF, lower-casing goes unit by unit. *)
Lemma toLowerCase_append (a b : string) :
  toLowerCase (a +:+ b) = toLowerCase a +:+ toLowerCase b.
Proof. induction a as [|x a IH]; simpl; [done | by rewrite IH]. Qed.

Lemma toLowerCase_append_inv (s x y : string) :
  toLowerCase s = x +:+ y ->
  exists a b, s = a +:+ b /\ toLowerCase a = x /\ toLowerCase b = y.
Proof.
  revert s. induction x as [|c x IH]; intros s H.
  - by exists "", s.
  - rewrite append_cons in H.
    destruct s as [|d s]; [discriminate|]. cbn [toLowerCase] in H. injection H as Hc H.
    destruct (IH _ H) as (a & b & -> & <- & <-).
    exists (String d a), b. cbn [toLowerCase]. by rewrite Hc.
Qed.

Lemma includes_lower_contains_ci (s kw : string) :
  includes (toLowerCase s) (toLowerCase kw) = true <-> contains_ci s kw.
Proof.
  rewrite includes_spec. unfold contains_ci, ci_equal. split.
  - intros (pre & post & H).
    apply toLowerCase_append_inv in H as (a & rest & -> & _ & H).
    apply toLowerCase_append_inv in H as (mid & b & -> & H & _).
    by exists a, mid, b.
  - intros (pre & mid & post & -> & H).
    exists (toLowerCase pre), (toLowerCase post).
    by rewrite !toLowerCase_append, H.
Qed.

Lemma hasKeyword_spec (kws : list string) (rationale : string) :
  hasKeyword kws (toLowerCase rationale) = true
  <-> exists kw, In kw kws /\ contains_ci rationale kw.
Proof.
  unfold hasKeyword. rewrite existsb_exists.
  split; intros (kw & Hin & H); exists kw; split; try done;
    by apply includes_lower_contains_ci.
Qed.

Lemma hasKeyword_spec_one (kws : list string) (rationale k : string) :
  In k kws -> contains_ci rationale k -> hasKeyword kws (toLowerCase rationale) = true.
Proof. intros Hin Hc. apply hasKeyword_spec. by exists k. Qed.

(** * Numbers: rounding to a double *)

Lemma round_half_even_exact (m d : Z) : 0 < d -> round_half_even (m * d) d = m.
Proof.
  intros Hd. unfold round_half_even.
  rewrite Z.div_mul, Z.mod_mul by lia. rewrite Z.mul_0_r.
  destruct (Z.compare_spec 0 d); [lia | reflexivity | lia].
Qed.

Lemma round_half_even_1 (m : Z) : round_half_even m 1 = m.
Proof. rewrite <- (Z.mul_1_r m) at 1. by apply round_half_even_exact. Qed.

Lemma Qred_inject_Z (z : Z) : Qred (inject_Z z) = inject_Z z.
Proof.
  pose proof (Qred_correct (inject_Z z)) as He.
  pose proof (gcd_Qred (inject_Z z)) as Hg.
  destruct (Qred (inject_Z z)) as [a b]. unfold Qeq, inject_Z in *. cbn in He, Hg.
  rewrite Z.mul_1_r in He. subst a.
  rewrite Z.gcd_comm, (Z.mul_comm z), Z.gcd_mul_diag_l in Hg by lia.
  injection Hg as ->. by rewrite Z.mul_1_r.
Qed.

Lemma Qred_integer (m : Z) (p : positive) (z : Z) :
  m = z * Zpos p -> Qred (m # p) = inject_Z z.
Proof.
  intros ->. rewrite <- (Qred_inject_Z z).
  apply Qred_complete. unfold Qeq, inject_Z. cbn. lia.
Qed.

(** The integers up to [2^53] in absolute value are doubles: rounding keeps
    them. *)
Lemma toDouble_integer (z : Z) :
  Z.abs z <= 2 ^ 53 -> toDouble (inject_Z z) = int z.
Proof.
  assert (Hpos : forall p, Zpos p <= 2 ^ 53 -> nearest_double (Zpos p) 1 = int (Zpos p)).
  { intros p Hp. unfold nearest_double, binade.
    pose proof (Z.log2_spec (Zpos p) ltac:(lia)) as [Hlo Hhi].
    pose proof (Z.log2_nonneg (Zpos p)) as Hnn.
    assert (Hle : Z.log2 (Zpos p) <= 53).
    { rewrite <- (Z.log2_pow2 53) by lia. by apply Z.log2_le_mono. }
    change (Z.log2 1) with 0. rewrite Z.sub_0_r.
    rewrite (proj2 (Z.leb_le 0 _) Hnn), Z.mul_1_l, (proj2 (Z.leb_le _ _) Hlo).
    rewrite Z.max_l by lia.
    set (e := Z.log2 (Zpos p)) in *.
    destruct (Z.leb_spec 0 (e - 52)) as [Hk|Hk].
    - assert (e = 52 \/ e = 53) as [He|He] by lia; rewrite He in *.
      + change (52 - 52) with 0. change (2 ^ 0) with 1. rewrite !Z.mul_1_r.
        rewrite round_half_even_1.
        destruct (Z.leb_spec (2 ^ 1024) (Zpos p)) as [H|H]; [|done].
        assert (2 ^ 53 < 2 ^ 1024) by (apply Z.pow_lt_mono_r; lia). lia.
      + change (53 - 52) with 1. change (2 ^ 1) with 2. rewrite Z.mul_1_l.
        assert (Zpos p = 2 ^ 53) as Hp53 by (change (53 + 1) with (Z.succ 53) in *; lia).
        rewrite Hp53. vm_compute. reflexivity.
    - rewrite round_half_even_1. unfold int. f_equal.
      apply Qred_integer.
      rewrite Z2Pos.id; [done|]. apply Z.pow_pos_nonneg; lia. }
  intros Hz. unfold toDouble. destruct z as [|p|p]; cbn [inject_Z Qnum Qden].
  - reflexivity.
  - apply Hpos. lia.
  - rewrite Hpos by lia. reflexivity.
Qed.

(** [Number] on literals next to a double, at the ends of the range and
    above [2^53]: the value is the nearest double, an infinity, or zero. *)
Lemma stringToNumber_rounds :
  stringToNumber "59.99999999999999999" = int 60
  /\ stringToNumber "2025.0000000000000001" = int 2025
  /\ stringToNumber "0.1" = Finite (3602879701896397 # 36028797018963968)
  /\ stringToNumber "9007199254740993" = int 9007199254740992
  /\ stringToNumber "9007199254740995" = int 9007199254740996
  /\ stringToNumber "1.7976931348623158e308" = int (2 ^ 1024 - 2 ^ 971)
  /\ stringToNumber "1.7976931348623159e308" = Infinity
  /\ stringToNumber "-1e400" = NegInfinity
  /\ stringToNumber "5e-324" = Finite (1 # Z.to_pos (2 ^ 1074))
  /\ stringToNumber "2e-324" = int 0
  /\ stringToNumber "-0" = int 0.
Proof. vm_compute. repeat split. Qed.

(** ** The derivative matcher *)

Lemma lang_seq_inv (r1 r2 : regex) (w : list ascii) :
  lang (RSeq r1 r2) w <-> exists w1 w2, w = w1 ++ w2 /\ lang r1 w1 /\ lang r2 w2.
Proof.
  split.
  - inversion 1; subst. by eexists _, _.
  - intros (w1 & w2 & -> & H1 & H2). by constructor.
Qed.

Lemma lang_alt_inv (r1 r2 : regex) (w : list ascii) :
  lang (RAlt r1 r2) w <-> lang r1 w \/ lang r2 w.
Proof.
  split.
  - inversion 1; subst; [by left | by right].
  - intros [H|H]; [by apply lang_alt_l | by apply lang_alt_r].
Qed.

Lemma lang_eps_inv (w : list ascii) : lang REps w <-> w = [].
Proof. split; [by inversion 1 | intros ->; constructor]. Qed.

Lemma lang_set_inv (p : ascii -> bool) (w : list ascii) :
  lang (RSet p) w <-> exists c, w = [c] /\ p c = true.
Proof.
  split; [inversion 1; subst; by eexists | intros (c & -> & H); by constructor].
Qed.

Lemma lang_none_inv (w : list ascii) : ~ lang RNone w.
Proof. inversion 1. Qed.

(** A non-empty word of a starred expression starts with a non-empty word of
    the expression. *)
Lemma lang_star_cons_inv (r : regex) (c : ascii) (w : list ascii) :
  lang (RStar r) (c :: w) ->
  exists w1 w2, w = w1 ++ w2 /\ lang r (c :: w1) /\ lang (RStar r) w2.
Proof.
  intros H. remember (RStar r) as rs eqn:Hr. remember (c :: w) as cw eqn:Hw.
  revert w Hw. induction H as [| | | | | |r0 w1 w2 H1 _ H2 IH2]; intros u Hu; try discriminate.
  injection Hr as ->.
  destruct w1 as [|d w1].
  - apply IH2; [done | exact Hu].
  - injection Hu as -> <-. by eexists _, _.
Qed.

Lemma nullable_spec (r : regex) : nullable r = true <-> lang r [].
Proof.
  induction r as [| |p|r1 IH1 r2 IH2|r1 IH1 r2 IH2|r IH]; cbn [nullable].
  - split; [done | inversion 1].
  - split; [constructor | done].
  - split; [done | inversion 1].
  - rewrite andb_true_iff, IH1, IH2, lang_seq_inv. split.
    + intros [H1 H2]. by exists [], [].
    + intros (w1 & w2 & Hw & H1 & H2).
      symmetry in Hw. apply app_eq_nil in Hw as [-> ->]. done.
  - rewrite orb_true_iff, IH1, IH2, lang_alt_inv. done.
  - split; [constructor | done].
Qed.

Lemma deriv_spec (r : regex) (c : ascii) (w : list ascii) :
  lang (deriv c r) w <-> lang r (c :: w).
Proof.
  revert w. induction r as [| |p|r1 IH1 r2 IH2|r1 IH1 r2 IH2|r IH]; intros w; cbn [deriv].
  - split; inversion 1.
  - split; inversion 1.
  - destruct (p c) eqn:Hp.
    + rewrite lang_eps_inv, lang_set_inv. split.
      * intros ->. by exists c.
      * by intros (d & [= -> ->] & _).
    + rewrite lang_set_inv. split; [inversion 1|].
      intros (d & [= -> ->] & H). congruence.
  - assert (Hseq : lang (RSeq (deriv c r1) r2) w
                   <-> exists w1 w2, w = w1 ++ w2 /\ lang r1 (c :: w1) /\ lang r2 w2).
    { rewrite lang_seq_inv. by setoid_rewrite IH1. }
    destruct (nullable r1) eqn:Hn.
    + rewrite lang_alt_inv, Hseq, IH2, lang_seq_inv. split.
      * intros [(w1 & w2 & -> & H1 & H2)|H2].
        -- by exists (c :: w1), w2.
        -- exists [], (c :: w). split; [done|]. split; [by apply nullable_spec | done].
      * intros (w1 & w2 & Hw & H1 & H2). destruct w1 as [|d w1].
        -- right. cbn in Hw. by subst.
        -- left. injection Hw as <- ->. by exists w1, w2.
    + rewrite Hseq, lang_seq_inv. split.
      * intros (w1 & w2 & -> & H1 & H2). by exists (c :: w1), w2.
      * intros (w1 & w2 & Hw & H1 & H2). destruct w1 as [|d w1].
        -- apply nullable_spec in H1. congruence.
        -- injection Hw as <- ->. by exists w1, w2.
  - rewrite !lang_alt_inv, IH1, IH2. done.
  - rewrite lang_seq_inv. setoid_rewrite IH. split.
    + intros (w1 & w2 & -> & H1 & H2). by apply (lang_star_cons r (c :: w1) w2).
    + apply lang_star_cons_inv.
Qed.

Lemma matches_spec (r : regex) (w : list ascii) : matches r w = true <-> lang r w.
Proof.
  revert r. induction w as [|c w IH]; intros r; cbn [matches].
  - apply nullable_spec.
  - by rewrite IH, deriv_spec.
Qed.

(** [p+] denotes the non-empty words over [p]. *)
Lemma lang_star_set (p : ascii -> bool) (w : list ascii) :
  lang (RStar (RSet p)) w <-> Forall (fun c => p c = true) w.
Proof.
  split.
  - intros H. remember (RStar (RSet p)) as rs eqn:Hr.
    induction H as [| | | | | |r0 w1 w2 H1 _ H2 IH2]; try discriminate.
    + constructor.
    + injection Hr as ->. apply lang_set_inv in H1 as (c & -> & Hc).
      constructor; [done | by apply IH2].
  - induction 1 as [|c w Hc _ IH]; [constructor|].
    apply (lang_star_cons _ [c] w); [by constructor | done].
Qed.

Lemma lang_plus_set (p : ascii -> bool) (w : list ascii) :
  lang (RPlus (RSet p)) w <-> w <> [] /\ Forall (fun c => p c = true) w.
Proof.
  unfold RPlus. rewrite lang_seq_inv. split.
  - intros (w1 & w2 & -> & H1 & H2).
    apply lang_set_inv in H1 as (c & -> & Hc). apply lang_star_set in H2.
    split; [done | by constructor].
  - intros [Hne H]. destruct H as [|c w Hc H]; [done|].
    exists [c], w. split; [done|]. split; [by constructor | by apply lang_star_set].
Qed.

Lemma email_char_spec (c : ascii) :
  email_char c = true <-> is_space c = false /\ c <> "@"%char.
Proof.
  unfold email_char. rewrite negb_true_iff, orb_false_iff.
  by rewrite Ascii.eqb_neq.
Qed.

Lemma lang_email_part (w : list ascii) :
  lang (RPlus (RSet email_char)) w <-> exists s, w = chars s /\ email_part s.
Proof.
  rewrite lang_plus_set. unfold email_part. split.
  - intros [Hne H]. destruct (chars_of_list w) as [s <-]. exists s.
    split; [done|]. split; [by intros -> |].
    eapply Forall_impl; [exact H|]. intros c. by apply email_char_spec.
  - intros (s & -> & Hne & H). split.
    + intros Hnil. apply Hne. by apply chars_inj.
    + eapply Forall_impl; [exact H|]. intros c. by apply email_char_spec.
Qed.

(** The e-mail expression of the evaluator accepts exactly the e-mail shape. *)
Lemma email_re_spec (s : string) : RegExp_test email_re s = true <-> email_shape s.
Proof.
  unfold RegExp_test, email_re, email_shape. cbn [re_start re_end re_body].
  rewrite matches_spec.
  rewrite !lang_seq_inv. split.
  - intros (w0 & w & Hs & H0 & H). apply lang_eps_inv in H0 as ->.
    apply lang_seq_inv in H as (wb & we & -> & Hb & He). apply lang_eps_inv in He as ->.
    apply lang_seq_inv in Hb as (wl & w1 & -> & Hl & H1).
    apply lang_seq_inv in H1 as (wa & w2 & -> & Ha & H2).
    apply lang_seq_inv in H2 as (wd & w3 & -> & Hd & H3).
    apply lang_seq_inv in H3 as (wp & wt & -> & Hp & Ht).
    apply lang_email_part in Hl as (l & -> & Hl).
    apply lang_email_part in Hd as (d & -> & Hd).
    apply lang_email_part in Ht as (t & -> & Ht).
    apply lang_set_inv in Ha as (a & -> & Ha%Ascii.eqb_eq).
    apply lang_set_inv in Hp as (p & -> & Hp%Ascii.eqb_eq). subst a p.
    exists l, d, t. split; [|done].
    apply chars_inj. rewrite Hs, !chars_append. cbn. by rewrite app_nil_r.
  - intros (l & d & t & -> & Hl & Hd & Ht).
    exists [], (chars (l +:+ "@" +:+ d +:+ "." +:+ t)). split; [done|].
    split; [constructor|].
    apply lang_seq_inv. exists (chars (l +:+ "@" +:+ d +:+ "." +:+ t)), [].
    split; [by rewrite app_nil_r|]. split; [|constructor].
    rewrite !chars_append.
    constructor; [apply lang_email_part; by exists l|].
    apply (lang_seq _ _ ["@"%char]); [by constructor|].
    constructor; [apply lang_email_part; by exists d|].
    apply (lang_seq _ _ ["."%char]); [by constructor|].
    apply lang_email_part; by exists t.
Qed.

(** The digit expression of the evaluator finds a digit anywhere. *)
Lemma digit_re_spec (s : string) :
  RegExp_test digit_re s = true <-> exists c, In c (chars s) /\ is_digit c = true.
Proof.
  unfold RegExp_test, digit_re. cbn [re_start re_end re_body].
  rewrite matches_spec, lang_seq_inv. split.
  - intros (w1 & w & Hs & _ & H).
    apply lang_seq_inv in H as (wd & w2 & -> & Hd & _).
    apply lang_set_inv in Hd as (c & -> & Hc).
    exists c. split; [|done]. rewrite Hs. apply in_app_iff. right. by left.
  - intros (c & Hin & Hc). apply in_split in Hin as (l1 & l2 & Hs).
    exists l1, (c :: l2). split; [done|]. split.
    + apply lang_star_set. by apply Forall_forall.
    + apply (lang_seq _ _ [c] l2); [by constructor|].
      apply lang_star_set. by apply Forall_forall.
Qed.

(** ** The rationale gate *)

Lemma required_length_z_or (field : Field.t) (n : Z) :
  required_length field n <-> n = z_or (Field.rationaleMinLength field) 30.
Proof.
  unfold required_length, z_or.
  destruct (Field.rationaleMinLength field) as [m|]; [|done].
  destruct (Z.eqb_spec m 0); split; intros; subst; try lia; tauto.
Qed.

Lemma lacks_keywords_spec (field : Field.t) (rationale : string) :
  lacks_keywords field rationale
  <-> exists kw kws, Field.rationaleKeywords field = Some (kw :: kws)
                     /\ hasKeyword (kw :: kws) (toLowerCase rationale) = false.
Proof.
  unfold lacks_keywords. split.
  - intros ([|kw kws] & Hk & Hne & Hnone); [done|].
    exists kw, kws. split; [done|].
    apply not_true_is_false. rewrite hasKeyword_spec.
    intros (k & Hin & Hc). by apply (Hnone k).
  - intros (kw & kws & Hk & Hnone). exists (kw :: kws).
    split; [done|]. split; [done|].
    intros k Hin Hc. apply not_true_iff_false in Hnone. apply Hnone.
    apply hasKeyword_spec. by exists k.
Qed.

Lemma checkRationale_invalid_iff (field : Field.t) (rationale : string) :
  RationaleResult.valid (checkRationale field rationale) = false
  <-> rationale_rejected field rationale.
Proof.
  unfold rationale_rejected. rewrite lacks_keywords_spec.
  setoid_rewrite required_length_z_or.
  unfold checkRationale.
  destruct (String.eqb_spec rationale "") as [He|He]; cbn [orb].
  { split; [by left | done]. }
  destruct (Z.ltb_spec (Z.of_nat (String.length rationale))
              (z_or (Field.rationaleMinLength field) 30)) as [Hl|Hl].
  { split; [|done]. intros _. right; left. by eexists. }
  destruct (Field.rationaleKeywords field) as [[|kw kws]|] eqn:Hk.
  - cbn [RationaleResult.valid]. split; [done|]. intros [?|[(n & -> & ?)|(k & ks & ? & _)]]; [done | lia | done].
  - destruct (hasKeyword (kw :: kws) (toLowerCase rationale)) eqn:Hh; cbn [RationaleResult.valid].
    + split; [done|].
      intros [?|[(n & -> & ?)|(k & ks & [= <- <-] & Hf)]]; [done | lia | congruence].
    + split; [|done]. intros _. right; right. by exists kw, kws.
  - cbn [RationaleResult.valid]. split; [done|]. intros [?|[(n & -> & ?)|(k & ks & ? & _)]]; [done | lia | done].
Qed.

Lemma checkRationale_shape (field : Field.t) (rationale : string) :
  checkRationale field rationale
    = {| RationaleResult.valid := true; RationaleResult.error := VNull |}
  \/ (RationaleResult.valid (checkRationale field rationale) = false
      /\ exists msg, RationaleResult.error (checkRationale field rationale) = VStr msg).
Proof.
  unfold checkRationale.
  destruct (_ || _); [right; split; [done | by eexists]|].
  destruct (Field.rationaleKeywords field) as [[|kw kws]|]; [by left | | by left].
  destruct (hasKeyword _ _); [by left | right; split; [done | by eexists]].
Qed.

(** C4 (amended).  [checkRationale] rejects a rationale exactly when it is
    empty, or shorter than the minimum length (the field's
    [rationaleMinLength], and 30 when the field declares none or declares 0),
    or the field declares a non-empty keyword list and the rationale,
    compared case-insensitively, contains none of the keywords; otherwise it
    returns [valid = true] with [error = null].  On the shipped [dob] field:
    29 characters are rejected, 30 characters without a keyword are rejected,
    35 characters containing "approved by" are accepted. *)
Theorem checkRationale_rejects_iff :
  (forall (field : Field.t) (rationale : string),
      (RationaleResult.valid (checkRationale field rationale) = false
       <-> rationale_rejected field rationale)
      /\ (checkRationale field rationale
            = {| RationaleResult.valid := true; RationaleResult.error := VNull |}
          \/ (RationaleResult.valid (checkRationale field rationale) = false
              /\ exists msg, RationaleResult.error (checkRationale field rationale) = VStr msg)))
  /\ (forall rationale : string,
        String.length rationale = 29%nat ->
        RationaleResult.valid (checkRationale dob rationale) = false)
  /\ (forall rationale : string,
        String.length rationale = 30%nat ->
        (forall kw, Field.rationaleKeywords dob = Some kw ->
                    forall k, In k kw -> ~ contains_ci rationale k) ->
        RationaleResult.valid (checkRationale dob rationale) = false)
  /\ (forall rationale : string,
        String.length rationale = 35%nat ->
        contains_ci rationale "approved by" ->
        checkRationale dob rationale
          = {| RationaleResult.valid := true; RationaleResult.error := VNull |}).
Proof.
  split; [intros; split; [apply checkRationale_invalid_iff | apply checkRationale_shape]|].
  split; [|split].
  - intros rationale Hlen. apply checkRationale_invalid_iff.
    right; left. exists 30. split; [by right | lia].
  - intros rationale Hlen Hnone. apply checkRationale_invalid_iff.
    right; right. eexists. split; [reflexivity|]. split; [done|].
    intros k. by apply Hnone.
  - intros rationale Hlen Hc.
    destruct (checkRationale_shape dob rationale) as [H|[H _]]; [done|].
    apply checkRationale_invalid_iff in H as [->|[(n & Hn & H)|(kws & [= <-] & _ & H)]].
    + discriminate.
    + apply required_length_z_or in Hn. cbn in Hn. lia.
    + exfalso. apply (H "approved by"); [by left | done].
Qed.

Lemma checkRationale_rejects_iff_witness :
  RationaleResult.valid (checkRationale dob "the candidate is a good fit!!") = false
  /\ RationaleResult.valid (checkRationale dob "the candidate is a good fit!!!") = false
  /\ checkRationale dob "age limit approved by the dean now!"
       = {| RationaleResult.valid := true; RationaleResult.error := VNull |}.
Proof.
  destruct checkRationale_rejects_iff as (_ & H29 & H30 & H35).
  split; [apply H29; reflexivity|].
  split.
  - apply H30; [reflexivity|].
    intros kw [= <-] k Hin Hc.
    pose proof (hasKeyword_spec_one _ _ _ Hin Hc) as H.
    vm_compute in H. discriminate.
  - apply H35; [reflexivity|].
    apply includes_lower_contains_ci. reflexivity.
Defined.

(** C4 as stated fails on a field that declares a minimum length of
    0: the code asks for 30 characters, the statement for none. *)
Lemma checkRationale_zero_minimum :
  RationaleResult.valid (checkRationale free_text_field "agreed") = false
  /\ ~ rationale_rejected_as_stated free_text_field "agreed".
Proof.
  split; [reflexivity|].
  intros [H|[H|(kws & H & _)]]; [discriminate | cbn in H; lia | discriminate].
Qed.

(** ** The flag threshold *)

Lemma List_filter_stdpp {A} (f : A -> bool) (l : list A) :
  List.filter f l = filter (fun x => f x = true) l.
Proof.
  induction l as [|x l IH]; [done|].
  cbn [List.filter]. rewrite filter_cons, IH.
  destruct (f x); by case_decide.
Qed.

Lemma activeExceptionsCount_size (exceptions : gmap string Exception) :
  activeExceptionsCount exceptions = size (active_entries exceptions).
Proof.
  unfold activeExceptionsCount, active_entries.
  induction exceptions as [|k e m Hk IH] using map_ind.
  - by rewrite map_to_list_empty, map_filter_empty, map_size_empty.
  - rewrite List_filter_stdpp in *.
    rewrite map_to_list_insert by done.
    cbn [map snd]. rewrite filter_cons.
    destruct (active e) eqn:He; case_decide; try done.
    + rewrite map_filter_insert_True by done.
      rewrite map_size_insert_None; [cbn; by rewrite IH|].
      by rewrite map_lookup_filter_None; left.
    + rewrite map_filter_insert_not' ; [done| by cbn; rewrite He |].
      intros y Hy. by rewrite Hk in Hy.
Qed.

(** C5.  [isFlagged] holds exactly when the number of exception entries with
    [active = true] is strictly greater than [systemRules.maxExceptions]; in
    the shipped configuration, whose threshold is 2, two active exceptions do
    not flag the record and three do. *)
Theorem isFlagged_strictly_greater :
  (forall (config : RulesConfig) (exceptions : gmap string Exception),
      isFlagged config exceptions = true
      <-> maxExceptions (systemRules config) < Z.of_nat (size (active_entries exceptions)))
  /\ maxExceptions (systemRules rulesConfig) = 2
  /\ (forall exceptions : gmap string Exception,
        size (active_entries exceptions) = 2%nat -> isFlagged rulesConfig exceptions = false)
  /\ (forall exceptions : gmap string Exception,
        size (active_entries exceptions) = 3%nat -> isFlagged rulesConfig exceptions = true).
Proof.
  assert (Hiff : forall config exceptions,
             isFlagged config exceptions = true
             <-> maxExceptions (systemRules config) < Z.of_nat (size (active_entries exceptions))).
  { intros config exceptions. unfold isFlagged.
    rewrite activeExceptionsCount_size. rewrite Z.gtb_ltb. apply Z.ltb_lt. }
  split; [exact Hiff|]. split; [reflexivity|]. split.
  - intros exceptions H. apply not_true_is_false. rewrite Hiff, H. cbn. lia.
  - intros exceptions H. rewrite Hiff, H. cbn. lia.
Qed.

Lemma isFlagged_strictly_greater_witness :
  isFlagged rulesConfig {[ "dob" := on "a"; "scoreValue" := on "b"; "graduationYear" := off "c" ]} = false
  /\ isFlagged rulesConfig {[ "dob" := on "a"; "scoreValue" := on "b"; "graduationYear" := on "c" ]} = true.
Proof.
  destruct isFlagged_strictly_greater as (_ & _ & H2 & H3).
  split; [apply H2 | apply H3]; vm_compute; reflexivity.
Defined.

(** ** The rule evaluator *)

(** Case analysis on every [match] of the goal, keeping the equations. *)
Ltac case_matches :=
  repeat match goal with
    | |- context [match ?x with _ => _ end] => destruct x eqn:?
    end.

Section EvaluatorProperties.

Variable RegExp_compile : string -> option (string -> bool).
Variable ageInYears : any -> number.

Local Abbreviation check := (check_rule RegExp_compile ageInYears).
Local Abbreviation run := (run_rules RegExp_compile ageInYears).
Local Abbreviation validate := (validateField RegExp_compile ageInYears).

Implicit Types (field : Field.t) (value : any) (allData : gmap string any).
Implicit Types (auditLog : list AuditEntry.t) (rule : Rule.t) (res : ValidationResult.t).

(** The rules before the first failing one are skipped over. *)
Lemma run_rules_pass_prefix field value allData auditLog pre rest :
  (forall r, In r pre -> check field value allData auditLog r = Returned None) ->
  run field value allData auditLog (pre ++ rest) = run field value allData auditLog rest.
Proof.
  induction pre as [|r pre IH]; intros Hpre; [done|].
  cbn [app run_rules]. rewrite (Hpre r) by (by left).
  apply IH. intros r' Hr'. apply Hpre. by right.
Qed.

Lemma run_rules_all_pass field value allData auditLog rules :
  (forall r, In r rules -> check field value allData auditLog r = Returned None) ->
  run field value allData auditLog rules = Returned (valid_verdict field).
Proof.
  intros H. rewrite <- (app_nil_r rules). by rewrite run_rules_pass_prefix.
Qed.

Lemma run_rules_first_failure field value allData auditLog pre rule post res :
  (forall r, In r pre -> check field value allData auditLog r = Returned None) ->
  check field value allData auditLog rule = Returned (Some res) ->
  run field value allData auditLog (pre ++ rule :: post) = Returned res.
Proof.
  intros Hpre Hrule. rewrite run_rules_pass_prefix by done.
  cbn [run_rules]. by rewrite Hrule.
Qed.

(** A rule is checked against the id and the category of its field only. *)
Lemma check_rule_same_field field field' value allData auditLog rule :
  Field.id field' = Field.id field ->
  Field.category field' = Field.category field ->
  check field' value allData auditLog rule = check field value allData auditLog rule.
Proof. intros Hid Hcat. unfold check_rule. by rewrite Hid, Hcat. Qed.

Lemma check_condition_None rule isSoft value allData cond :
  check_condition rule isSoft value allData cond = None <-> ~ condition_fails value allData cond.
Proof.
  unfold check_condition, condition_fails.
  destruct (applies allData cond), (requires_fails allData cond),
    (bounds_fail (toNumber value) cond); intuition congruence.
Qed.

Lemma check_condition_Some rule isSoft value allData cond res :
  check_condition rule isSoft value allData cond = Some res ->
  condition_fails value allData cond
  /\ res = failure isSoft (str_or (Cond.message cond) (Rule.message rule)).
Proof.
  unfold check_condition, condition_fails.
  destruct (applies allData cond); [|done].
  destruct (requires_fails allData cond); [intros [= <-]; tauto|].
  destruct (bounds_fail (toNumber value) cond); [intros [= <-]; tauto | done].
Qed.

Lemma check_conditions_failure rule isSoft value allData conds res :
  check_conditions rule isSoft value allData conds = Some res ->
  ValidationResult.valid res = false
  /\ ValidationResult.isSoft res = isSoft
  /\ ValidationResult.blockSubmission res = None
  /\ exists cond, first_failing_condition value allData conds cond
       /\ ValidationResult.error res = of_opt (str_or (Cond.message cond) (Rule.message rule)).
Proof.
  induction conds as [|cond conds IH]; [done|].
  cbn [check_conditions].
  destruct (check_condition rule isSoft value allData cond) as [r|] eqn:Hc.
  - intros [= <-]. apply check_condition_Some in Hc as [Hf ->].
    do 3 (split; [done|]). exists cond. split; [|done].
    exists [], conds. split; [done|]. split; [by intros c []|done].
  - intros H. destruct (IH H) as (Hv & Hs & Hb & cond' & (pre & post & -> & Hpre & Hf) & He).
    do 3 (split; [done|]). exists cond'. split; [|done].
    exists (cond :: pre), post. split; [done|]. split; [|done].
    intros c [<-|Hin]; [by apply (check_condition_None rule isSoft) | by apply Hpre].
Qed.

(** What a failing rule returns: an invalid verdict with the reported
    message, and the [blockSubmission] flag of the rule when it is a
    [notEquals] rule, no flag otherwise. *)
Lemma check_rule_failure field value allData auditLog rule res :
  check field value allData auditLog rule = Returned (Some res) ->
  ValidationResult.valid res = false
  /\ ValidationResult.isSoft res = bool_decide (Field.category field = soft)
  /\ reports_message_of value allData rule res
  /\ ValidationResult.blockSubmission res
     = (if bool_decide (Rule.type rule = notEquals) then Rule.blockSubmission rule else None).
Proof.
  unfold check_rule, reports_message_of.
  destruct (Rule.type rule) eqn:Ht; cbn [bool_decide decide_rel];
    case_matches;
    try discriminate;
    try (intros [= <-]; by repeat split).
  intros [= H]. apply check_conditions_failure in H as (Hv & Hs & Hb & cond & Hin & He).
  do 2 (split; [done|]). split; [by eexists _, cond | done].
Qed.

Lemma num_lt_NaN_l (n : number) : num_lt NaN n = false.
Proof. done. Qed.

Lemma num_lt_NaN_r (n : number) : num_lt n NaN = false.
Proof. by destruct n. Qed.

Lemma bounds_fail_NaN (cond : Cond.t) : bounds_fail NaN cond = false.
Proof.
  unfold bounds_fail, num_gt.
  destruct (Cond.min cond), (Cond.max cond); by rewrite ?num_lt_NaN_l, ?num_lt_NaN_r.
Qed.

Lemma check_conditions_NaN rule isSoft value allData conds :
  toNumber value = NaN ->
  (forall cond, In cond conds -> requires_fails allData cond = false) ->
  check_conditions rule isSoft value allData conds = None.
Proof.
  intros Hn. induction conds as [|cond conds IH]; intros Hreq; [done|].
  cbn [check_conditions]. unfold check_condition.
  rewrite (Hreq cond) by (by left). rewrite Hn, bounds_fail_NaN.
  destruct (applies _ _); apply IH; intros c Hc; apply Hreq; by right.
Qed.

(** A rule that cannot reach a malformed pattern returns. *)
Lemma check_rule_returns field value allData auditLog rule :
  (is_string value = true -> forall p,
      Rule.type rule = pattern -> Rule.pattern rule = Some p -> p <> "" ->
      is_Some (RegExp_compile p)) ->
  exists o, check field value allData auditLog rule = Returned o.
Proof.
  intros Hp. unfold check_rule.
  destruct (Rule.type rule) eqn:Ht; try (case_matches; by eexists).
  destruct value as [| | | |s]; try by eexists.
  destruct (Rule.pattern rule) as [p|] eqn:Hpat; [|by eexists].
  destruct (String.eqb_spec p "") as [->|Hne]; cbn [negb]; [by eexists|].
  destruct (Hp eq_refl p eq_refl eq_refl Hne) as [test ->]. by eexists.
Qed.

Lemma run_rules_returns field value allData auditLog rules :
  (forall rule, In rule rules ->
                exists o, check field value allData auditLog rule = Returned o) ->
  exists res, run field value allData auditLog rules = Returned res
    /\ (res = valid_verdict field
        \/ (ValidationResult.valid res = false
            /\ exists rule, In rule rules /\ reports_message_of value allData rule res)).
Proof.
  induction rules as [|rule rules IH]; intros H.
  - eexists. split; [reflexivity | by left].
  - cbn [run_rules]. destruct (H rule) as [[res|] Hr]; [by left | |]; rewrite Hr.
    + exists res. split; [done|]. right.
      apply check_rule_failure in Hr as (Hv & _ & Hm & _).
      split; [done|]. exists rule. split; [by left | done].
    + destruct IH as (res & Hrun & Hres).
      { intros r Hin. apply H. by right. }
      exists res. split; [done|].
      destruct Hres as [->|(Hv & r & Hin & Hm)]; [by left|].
      right. split; [done|]. exists r. split; [by right | done].
Qed.

(** C2 (amended).  [validateField] applies the rules of a field in list
    order and returns at the first failing rule: the verdict is invalid, it
    carries the message reported for that rule (the [message] of the rule;
    for a [conditional] rule the [message] of the first sub-condition that
    fails on the value, when it has a non-empty one, else the [message] of
    the rule), and it does not
    depend on the rules that follow, which are not evaluated.  When every
    rule passes the verdict is [valid = true] with [error = null].  For a
    field whose rules are [required] then [minLength], the empty string
    yields the verdict of the [required] rule. *)
Theorem validateField_first_failure_wins :
  (forall field value allData auditLog pre rule post res,
      Field.validations field = pre ++ rule :: post ->
      (forall r, In r pre -> check field value allData auditLog r = Returned None) ->
      check field value allData auditLog rule = Returned (Some res) ->
      validate field value allData auditLog = Returned res
      /\ ValidationResult.valid res = false
      /\ reports_message_of value allData rule res
      /\ (forall field' post',
            Field.id field' = Field.id field ->
            Field.category field' = Field.category field ->
            Field.validations field' = pre ++ rule :: post' ->
            validate field' value allData auditLog = Returned res))
  /\ (forall field value allData auditLog,
        (forall r, In r (Field.validations field) ->
                   check field value allData auditLog r = Returned None) ->
        validate field value allData auditLog = Returned (valid_verdict field))
  /\ (forall field allData auditLog req len,
        Field.validations field = [req; len] ->
        Rule.type req = required -> Rule.type len = minLength ->
        validate field (VStr "") allData auditLog
          = Returned (failure (bool_decide (Field.category field = soft)) (Rule.message req))).
Proof.
  split; [|split].
  - intros field value allData auditLog pre rule post res Hv Hpre Hrule.
    split; [unfold validateField; rewrite Hv; by apply run_rules_first_failure|].
    destruct (check_rule_failure _ _ _ _ _ _ Hrule) as (Hinv & _ & Hmsg & _).
    do 2 (split; [done|]).
    intros field' post' Hid Hcat Hv'. unfold validateField. rewrite Hv'.
    apply run_rules_first_failure.
    + intros r Hr. rewrite (check_rule_same_field field) by done. by apply Hpre.
    + by rewrite (check_rule_same_field field).
  - intros field value allData auditLog H. by apply run_rules_all_pass.
  - intros field allData auditLog req len Hv Hreq Hlen.
    unfold validateField. rewrite Hv. cbn [run_rules].
    unfold check_rule at 1. by rewrite Hreq.
Qed.

(** C6 (amended).  A non-numeric string is coerced to not-a-number, and
    every comparison with not-a-number is false: the numeric checks of the
    [range] and [minValue] rules and the [min]/[max] check of a
    [conditional] rule pass on it.  A [conditional] rule then fails on
    such a value only through a [requires] check. *)
Theorem numeric_checks_pass_on_NaN field s allData auditLog rule :
  stringToNumber s = NaN ->
  (Rule.type rule = range -> check field (VStr s) allData auditLog rule = Returned None)
  /\ (Rule.type rule = minValue ->
      check field (VStr s) allData auditLog rule = Returned None)
  /\ (forall cond, bounds_fail (toNumber (VStr s)) cond = false)
  /\ (Rule.type rule = conditional ->
      (forall conds cond, Rule.conditions rule = Some conds -> In cond conds ->
                          requires_fails allData cond = false) ->
      check field (VStr s) allData auditLog rule = Returned None).
Proof.
  intros Hs. split; [|split; [|split]].
  - intros Ht. unfold check_rule. rewrite Ht. cbn [toNumber]. rewrite Hs.
    unfold num_gt. by rewrite num_lt_NaN_l, num_lt_NaN_r.
  - intros Ht. unfold check_rule. rewrite Ht. cbn [toNumber]. rewrite Hs.
    by rewrite num_lt_NaN_l.
  - intros cond. cbn [toNumber]. rewrite Hs. apply bounds_fail_NaN.
  - intros Ht Hreq. unfold check_rule. rewrite Ht.
    destruct (Rule.conditions rule) as [conds|] eqn:Hc; [|done].
    rewrite check_conditions_NaN; [done | exact Hs | by eauto].
Qed.

Lemma exists_in_log_spec auditLog id value :
  exists_in_log auditLog id value = true <-> recorded_before auditLog id value.
Proof. unfold exists_in_log, recorded_before. apply existsb_exists. Qed.

(** C7 (amended).  For a field that carries a [unique] rule with
    [checkStorage] set, whose earlier rules pass: on a string the rule fails
    exactly when some entry of the history records a strictly equal value
    for the field id, and [validateField] then returns the verdict of the
    rule; when the later rules pass as well, [validateField] returns invalid
    exactly in that case.  On a value that is not a string the rule is skipped.
    With the history [[{formData: {email: "a@x.com"}}]], the shipped [email]
    field is invalid on ["a@x.com"] and valid on ["b@x.com"]. *)
Theorem unique_rule_checks_history :
  (forall field value allData auditLog pre rule post,
      Field.validations field = pre ++ rule :: post ->
      Rule.type rule = unique -> Rule.checkStorage rule = Some true ->
      (forall r, In r pre -> check field value allData auditLog r = Returned None) ->
      (forall s, value = VStr s ->
         (check field value allData auditLog rule
            = Returned (Some (failure (bool_decide (Field.category field = soft))
                                (Rule.message rule)))
          <-> recorded_before auditLog (Field.id field) value)
         /\ (recorded_before auditLog (Field.id field) value ->
             validate field value allData auditLog
               = Returned (failure (bool_decide (Field.category field = soft))
                             (Rule.message rule)))
         /\ ((forall r, In r post -> check field value allData auditLog r = Returned None) ->
             exists res, validate field value allData auditLog = Returned res
               /\ (ValidationResult.valid res = false
                   <-> recorded_before auditLog (Field.id field) value)))
      /\ (is_string value = false ->
          check field value allData auditLog rule = Returned None))
  /\ (forall allData,
        validate email (VStr "a@x.com") allData [entry_of {[ "email" := VStr "a@x.com" ]}]
          = Returned (failure false (Some "This email is already registered"))
        /\ validate email (VStr "b@x.com") allData [entry_of {[ "email" := VStr "a@x.com" ]}]
          = Returned (valid_verdict email)).
Proof.
  split.
  - intros field value allData auditLog pre rule post Hv Ht Hcs Hpre. split.
    + intros s ->.
      assert (Hcheck : check field (VStr s) allData auditLog rule
                = Returned (if exists_in_log auditLog (Field.id field) (VStr s)
                            then Some (failure (bool_decide (Field.category field = soft))
                                         (Rule.message rule))
                            else None)).
      { unfold check_rule. by rewrite Ht, Hcs. }
      unfold validateField. rewrite Hv. rewrite run_rules_pass_prefix by done.
      cbn [run_rules]. rewrite Hcheck. split; [|split].
      * rewrite <- exists_in_log_spec.
        destruct (exists_in_log auditLog (Field.id field) (VStr s)); by split.
      * intros Hrec. apply exists_in_log_spec in Hrec. by rewrite Hrec.
      * intros Hpost. setoid_rewrite <- exists_in_log_spec.
        destruct (exists_in_log auditLog (Field.id field) (VStr s)); cbv beta iota.
        -- eexists. split; [reflexivity | done].
        -- rewrite run_rules_all_pass by done. eexists. split; [reflexivity | done].
    + intros Hns. unfold check_rule. rewrite Ht, Hcs. by destruct value.
  - intros allData. split; reflexivity.
Qed.

(** C8 (amended).  When an [emailFormat] rule is evaluated on a string, it
    passes if the string has the [local@domain.tld] shape and fails with
    the message of the rule otherwise; on a value of any other type the
    rule passes without looking at it. *)
Theorem emailFormat_checks_strings field value allData auditLog rule :
  Rule.type rule = emailFormat ->
  (forall s, value = VStr s ->
     (email_shape s -> check field value allData auditLog rule = Returned None)
     /\ (~ email_shape s ->
         check field value allData auditLog rule
           = Returned (Some (failure (bool_decide (Field.category field = soft))
                               (Rule.message rule)))))
  /\ (is_string value = false -> check field value allData auditLog rule = Returned None).
Proof.
  intros Ht. split.
  - intros s ->. unfold check_rule. rewrite Ht.
    pose proof (email_re_spec s) as Hspec.
    destruct (RegExp_test email_re s); split; intros H; try done.
    + exfalso. apply H. by apply Hspec.
    + apply Hspec in H. discriminate.
  - intros Hns. unfold check_rule. rewrite Ht. by destruct value.
Qed.

(** C9 (amended).  [validateField] returns a verdict on every field,
    value, record and history for which no [pattern] rule of the field
    carries a non-empty pattern that the regular expression constructor
    rejects (a value that is not a string never reaches the constructor):
    the verdict is either [valid = true] with [error = null], or
    [valid = false] with the message reported for one of the rules of the
    field.  [checkRationale] always returns, either [valid = true] with
    [error = null] or [valid = false] with a message. *)
Theorem validateField_returns_a_verdict :
  (forall field value allData auditLog,
      (is_string value = true -> patterns_compile RegExp_compile field) ->
      exists res, validate field value allData auditLog = Returned res
        /\ (res = valid_verdict field
            \/ (ValidationResult.valid res = false
                /\ exists rule, In rule (Field.validations field)
                                /\ reports_message_of value allData rule res)))
  /\ (forall field rationale,
        checkRationale field rationale
          = {| RationaleResult.valid := true; RationaleResult.error := VNull |}
        \/ (RationaleResult.valid (checkRationale field rationale) = false
            /\ exists msg, RationaleResult.error (checkRationale field rationale) = VStr msg)).
Proof.
  split; [|apply checkRationale_shape].
  intros field value allData auditLog Hp. apply run_rules_returns.
  intros rule Hin. apply check_rule_returns.
  intros Hs p Ht Hpat Hne. by apply (Hp Hs rule p).
Qed.

End EvaluatorProperties.

(** *** The evaluator on sample inputs *)

Lemma validateField_first_failure_wins_witness :
  validateField subset_engine age_unknown fullName (VStr "A") ∅ []
    = Returned (failure false (Some "Name must be at least 2 characters"))
  /\ validateField subset_engine age_unknown fullName (VStr "Ab") ∅ []
     = Returned (valid_verdict fullName)
  /\ validateField subset_engine age_unknown nickname_field (VStr "") ∅ []
     = Returned (failure true (Some "Nickname is required"))
  /\ exists rule res,
       Field.validations scoreValue = [simple_rule required "Score is required"; rule]
       /\ validateField subset_engine age_unknown scoreValue (VStr "5.5")
            {[ "scoreType" := VStr "cgpa" ]} [] = Returned res
       /\ reports_message_of (VStr "5.5") {[ "scoreType" := VStr "cgpa" ]} rule res.
Proof.
  destruct (validateField_first_failure_wins subset_engine age_unknown) as (H1 & H2 & H3).
  split; [|split; [|split]].
  - refine (proj1 (H1 fullName (VStr "A") ∅ []
                     [simple_rule required "Full name is required"]
                     (value_rule minLength (VNum (int 2)) "Name must be at least 2 characters")
                     [pattern_rule noNumbers "^[^0-9]*$" "Name cannot contain numbers"]
                     _ _ _ _)).
    + reflexivity.
    + intros r [<-|[]]. reflexivity.
    + reflexivity.
  - apply H2. intros r Hr. cbn in Hr.
    destruct Hr as [<-|[<-|[<-|[]]]]; reflexivity.
  - apply (H3 nickname_field ∅ [] _ _ eq_refl); reflexivity.
  - eexists _, _. split; [reflexivity|].
    edestruct (H1 scoreValue (VStr "5.5") {[ "scoreType" := VStr "cgpa" ]} []
                 [simple_rule required "Score is required"]) as (Hv & _ & Hm & _);
      [reflexivity | by intros r [<-|[]] | vm_compute; reflexivity|].
    split; [exact Hv | exact Hm].
Defined.

(** C2 as stated fails on the shipped [scoreValue] field: its
    [conditional] rule has no [message], and the verdict carries the message
    of the sub-condition. *)
Lemma conditional_failure_reports_condition_message :
  exists rule res,
    Field.validations scoreValue = [simple_rule required "Score is required"; rule]
    /\ check_rule subset_engine age_unknown scoreValue (VStr "55")
         {[ "scoreType" := VStr "percentage" ]} []
         (simple_rule required "Score is required") = Returned None
    /\ check_rule subset_engine age_unknown scoreValue (VStr "55")
         {[ "scoreType" := VStr "percentage" ]} [] rule = Returned (Some res)
    /\ validateField subset_engine age_unknown scoreValue (VStr "55")
         {[ "scoreType" := VStr "percentage" ]} [] = Returned res
    /\ ValidationResult.valid res = false
    /\ Rule.message rule = None
    /\ ~ carries_rule_message rule res.
Proof.
  eexists _, _. split; [reflexivity|].
  split; [reflexivity|]. split; [vm_compute; reflexivity|].
  split; [vm_compute; reflexivity|]. split; [reflexivity|]. split; [reflexivity|].
  unfold carries_rule_message. cbn. discriminate.
Qed.

Lemma numeric_checks_pass_on_NaN_witness :
  check_rule subset_engine age_unknown graduationYear (VStr "abc") ∅ []
    (bounds_rule range 2015 2025 "Graduation year must be between 2015-2025") = Returned None
  /\ bounds_fail (toNumber (VStr "abc"))
       {| Cond.when := "scoreType"; Cond.is_ := VStr "percentage"; Cond.in_ := None;
          Cond.requires := None; Cond.min := Some (int 60); Cond.max := None;
          Cond.message := None |} = false.
Proof.
  destruct (numeric_checks_pass_on_NaN subset_engine age_unknown graduationYear "abc" ∅ []
              (bounds_rule range 2015 2025 "Graduation year must be between 2015-2025")
              eq_refl) as (Hr & _ & Hb & _).
  split; [apply Hr; reflexivity | apply Hb].
Defined.

(** C6 as stated fails on the shipped [graduationYear] field: its
    [range] rule, with both bounds set, passes on a non-numeric string. *)
Lemma non_numeric_string_passes_range :
  stringToNumber "abc" = NaN
  /\ check_rule subset_engine age_unknown graduationYear (VStr "abc") ∅ []
       (bounds_rule range 2015 2025 "Graduation year must be between 2015-2025")
     = Returned None
  /\ validateField subset_engine age_unknown graduationYear (VStr "abc") ∅ []
     = Returned (valid_verdict graduationYear).
Proof. split; [|split]; vm_compute; reflexivity. Qed.

Lemma unique_rule_checks_history_witness :
  validateField subset_engine age_unknown handle_field (VStr "bobby") ∅
    [entry_of {[ "handle" := VStr "bobby" ]}]
    = Returned (failure false (Some "This email is already registered"))
  /\ validateField subset_engine age_unknown email (VStr "b@x.com") ∅
       [entry_of {[ "email" := VStr "a@x.com" ]}]
     = Returned (valid_verdict email).
Proof.
  destruct (unique_rule_checks_history subset_engine age_unknown) as [Hg He].
  split; [|apply (He ∅)].
  destruct (Hg handle_field (VStr "bobby") ∅ [entry_of {[ "handle" := VStr "bobby" ]}]
              [] unique_rule [value_rule minLength (VNum (int 3)) "Too short"]
              eq_refl eq_refl eq_refl) as [Hs _].
  { intros r []. }
  destruct (Hs "bobby" eq_refl) as (_ & Hrec & _). apply Hrec.
  eexists. split; [by left | reflexivity].
Defined.

(** C7 as stated fails in both directions: a recorded number is not
    looked for, and a later rule can fail on a value never recorded. *)
Lemma unique_rule_skips_non_strings :
  (validateField subset_engine age_unknown serial_field (VNum (int 5)) ∅
     [entry_of {[ "serial" := VNum (int 5) ]}]
   = Returned (valid_verdict serial_field)
   /\ recorded_before [entry_of {[ "serial" := VNum (int 5) ]}] "serial" (VNum (int 5)))
  /\ (validateField subset_engine age_unknown handle_field (VStr "al") ∅ []
      = Returned (failure false (Some "Too short"))
      /\ ~ recorded_before [] "handle" (VStr "al")).
Proof.
  split; split.
  - reflexivity.
  - eexists. split; [by left | reflexivity].
  - vm_compute. reflexivity.
  - intros (entry & [] & _).
Qed.

Lemma emailFormat_checks_strings_witness :
  check_rule subset_engine age_unknown contact_field (VStr "a@x.com") ∅ []
    (simple_rule emailFormat "Enter a valid email address") = Returned None
  /\ check_rule subset_engine age_unknown contact_field (VStr "a@x") ∅ []
       (simple_rule emailFormat "Enter a valid email address")
     = Returned (Some (failure false (Some "Enter a valid email address")))
  /\ check_rule subset_engine age_unknown contact_field (VBool true) ∅ []
       (simple_rule emailFormat "Enter a valid email address") = Returned None.
Proof.
  split; [|split].
  - destruct (emailFormat_checks_strings subset_engine age_unknown contact_field
                (VStr "a@x.com") ∅ [] (simple_rule emailFormat "Enter a valid email address")
                eq_refl) as [Hs _].
    apply (Hs "a@x.com" eq_refl). apply email_re_spec. reflexivity.
  - destruct (emailFormat_checks_strings subset_engine age_unknown contact_field
                (VStr "a@x") ∅ [] (simple_rule emailFormat "Enter a valid email address")
                eq_refl) as [Hs _].
    apply (Hs "a@x" eq_refl). intros H. apply email_re_spec in H. discriminate.
  - destruct (emailFormat_checks_strings subset_engine age_unknown contact_field
                (VBool true) ∅ [] (simple_rule emailFormat "Enter a valid email address")
                eq_refl) as [_ Hn].
    apply Hn. reflexivity.
Defined.

(** C8 as stated fails on a number: it has no e-mail shape and the
    rule lets it through. *)
Lemma emailFormat_passes_numbers :
  validateField subset_engine age_unknown contact_field (VNum (int 42)) ∅ []
    = Returned (valid_verdict contact_field)
  /\ ~ has_email_shape (VNum (int 42)).
Proof.
  split; [reflexivity|]. intros (s & Hs & _). discriminate.
Qed.

Lemma patterns_compile_phone : patterns_compile subset_engine phone.
Proof.
  intros rule p Hin Ht Hp Hne. cbn in Hin.
  destruct Hin as [<-|[<-|[]]]; [discriminate|].
  injection Hp as <-. vm_compute. by eexists.
Defined.

Lemma validateField_returns_a_verdict_witness :
  exists res,
    validateField subset_engine age_unknown phone (VStr "12345") ∅ [] = Returned res
    /\ (res = valid_verdict phone
        \/ (ValidationResult.valid res = false
            /\ exists rule, In rule (Field.validations phone)
                 /\ reports_message_of (VStr "12345") ∅ rule res)).
Proof.
  destruct (validateField_returns_a_verdict subset_engine age_unknown) as [H _].
  apply H. intros _. exact patterns_compile_phone.
Defined.

(** C9 as stated fails on a [pattern] rule whose pattern is malformed:
    the constructor throws and so does [validateField]. *)
Lemma validateField_throws_on_malformed_pattern :
  subset_engine "(" = None
  /\ validateField subset_engine age_unknown broken_pattern_field (VStr "A1") ∅ []
     = Thrown (SyntaxError "(").
Proof. split; vm_compute; reflexivity. Qed.

(** ** The submission gate *)

Lemma find_field_Some (schema : list Field.t) (id : string) (field : Field.t) :
  find_field schema id = Some field -> In field schema /\ Field.id field = id.
Proof.
  unfold find_field. intros H. apply find_some in H as [Hin Heq].
  split; [done | by apply String.eqb_eq].
Qed.

Lemma find_field_In (schema : list Field.t) (field : Field.t) :
  In field schema -> exists field', find_field schema (Field.id field) = Some field'.
Proof.
  unfold find_field. intros Hin.
  destruct (find _ schema) as [f|] eqn:Hf; [by eexists|].
  apply (find_none _ _ Hf) in Hin. by rewrite String.eqb_refl in Hin.
Qed.

(** The exception check of a soft field, in words. *)
Lemma exception_check_spec (exceptions : gmap string Exception) (field : Field.t) (id : string) :
  match exceptions !! id with
  | Some exc =>
      negb (active exc) || negb (RationaleResult.valid (checkRationale field (rationale exc)))
  | None => true
  end = true
  <-> no_active_exception exceptions id \/ rationale_fails exceptions field id.
Proof.
  unfold no_active_exception, rationale_fails.
  destruct (exceptions !! id) as [exc|].
  - destruct (active exc) eqn:Ha; cbn [negb orb].
    + rewrite negb_true_iff. split.
      * intros H. right. by exists exc.
      * intros [H|(e & [= <-] & _ & H)]; [|done].
        specialize (H exc eq_refl). congruence.
    + split; [|done]. intros _. left. by intros e [= <-].
  - split; [|done]. intros _. by left.
Qed.

Lemma blocks_spec (schema : list Field.t) (exceptions : gmap string Exception)
    (id : string) (result : ValidationResult.t) :
  blocks schema exceptions (id, result) = true
  <-> exists field,
        find_field schema id = Some field
        /\ (ValidationResult.blockSubmission result = Some true
            \/ (ValidationResult.valid result = false /\ category_blocks exceptions field id)).
Proof.
  unfold blocks, category_blocks.
  destruct (find_field schema id) as [field|]; [|split; [done | by intros (f & ? & _)]].
  transitivity
    (ValidationResult.blockSubmission result = Some true
     \/ (ValidationResult.valid result = false
         /\ (Field.category field = strict
             \/ (Field.category field = soft
                 /\ (no_active_exception exceptions id
                     \/ rationale_fails exceptions field id))))).
  2: { split; [intros H; by exists field | by intros (f & [= <-] & H)]. }
  rewrite <- (exception_check_spec exceptions field id).
  generalize (match exceptions !! id with
              | Some exc =>
                  negb (active exc)
                  || negb (RationaleResult.valid (checkRationale field (rationale exc)))
              | None => true
              end).
  intros chk.
  destruct (Field.category field), (ValidationResult.valid result),
    (ValidationResult.blockSubmission result) as [[|]|], chk;
    repeat case_bool_decide; cbn; intuition congruence.
Qed.

Lemma hasStrictErrors_spec (schema : list Field.t)
    (validationErrors : gmap string ValidationResult.t) (exceptions : gmap string Exception) :
  hasStrictErrors schema validationErrors exceptions = true
  <-> hasBlockingFailure schema validationErrors exceptions.
Proof.
  unfold hasStrictErrors, hasBlockingFailure. rewrite existsb_exists. split.
  - intros ([id result] & Hin & Hb).
    apply list_elem_of_In, elem_of_map_to_list in Hin.
    apply blocks_spec in Hb as (field & Hf & H). by exists id, result, field.
  - intros (id & result & field & Hl & Hf & H). exists (id, result). split.
    + by apply list_elem_of_In, elem_of_map_to_list.
    + apply blocks_spec. by exists field.
Qed.

Lemma isRequired_spec (field : Field.t) : isRequired field = true <-> has_required_rule field.
Proof.
  unfold isRequired, has_required_rule. rewrite existsb_exists.
  split; intros (rule & Hin & H); exists rule; split; try done.
  - by apply bool_decide_eq_true in H.
  - by apply bool_decide_eq_true.
Qed.

Lemma holds_nothing_spec (formData : gmap string any) (id : string) :
  strict_eq (get formData id) VUndefined || strict_eq (get formData id) VNull
  || strict_eq (get formData id) (VStr "") = true
  <-> holds_nothing formData id.
Proof.
  unfold holds_nothing. destruct (get formData id) as [| |b|n|s]; cbn.
  - split; [by left | done].
  - split; [by right; left | done].
  - split; [done | by intros [|[|]]].
  - split; [done | by intros [|[|]]].
  - split.
    + intros H. apply String.eqb_eq in H as ->. by right; right.
    + intros [|[|[= ->]]]; done.
Qed.

Lemma missingRequired_spec (schema : list Field.t) (formData : gmap string any) :
  missingRequired schema formData = true <-> missing_required schema formData.
Proof.
  unfold missingRequired, missing_required. rewrite existsb_exists.
  split; intros (field & Hin & H); exists field; (split; [done|]).
  - apply andb_true_iff in H as [Hr Hn].
    split; [by apply isRequired_spec | by apply holds_nothing_spec].
  - destruct H as [Hr Hn]. apply andb_true_iff.
    split; [by apply isRequired_spec | by apply holds_nothing_spec].
Qed.


(** ** The validation effect and the gate together *)

Section GateProperties.

Variable RegExp_compile : string -> option (string -> bool).
Variable ageInYears : any -> number.

Local Abbreviation check := (check_rule RegExp_compile ageInYears).
Local Abbreviation validate := (validateField RegExp_compile ageInYears).
Local Abbreviation collect := (collect_errors RegExp_compile ageInYears).
Local Abbreviation effect := (validationEffect RegExp_compile ageInYears).

(** The loop leaves the entries of the other ids alone. *)
Lemma collect_errors_other formData auditLog schema :
  forall acc errors id,
    collect formData auditLog acc schema = Returned errors ->
    ~ In id (map Field.id schema) ->
    errors !! id = acc !! id.
Proof.
  induction schema as [|f schema IH]; intros acc errors id Hc Hid.
  - by injection Hc as <-.
  - cbn [collect_errors] in Hc.
    destruct (validate f _ _ _) as [res|e]; [|done].
    rewrite (IH _ _ _ Hc) by (intros H; apply Hid; by right).
    destruct (negb _); [|done].
    apply lookup_insert_ne. intros Heq. apply Hid. by left.
Qed.

(** With unique ids, the failure of a field is what the effect stores
    under its id. *)
Lemma collect_errors_failure formData auditLog schema :
  forall acc errors field res,
    NoDup (map Field.id schema) -> In field schema ->
    collect formData auditLog acc schema = Returned errors ->
    validate field (get formData (Field.id field)) formData auditLog = Returned res ->
    ValidationResult.valid res = false ->
    errors !! Field.id field = Some res.
Proof.
  induction schema as [|f schema IH]; intros acc errors field res Hnd Hin Hc Hv Hinv; [done|].
  cbn [map] in Hnd. apply NoDup_cons in Hnd as [Hf Hnd].
  cbn [collect_errors] in Hc. destruct Hin as [->|Hin].
  - rewrite Hv, Hinv in Hc. cbn [negb] in Hc.
    rewrite (collect_errors_other _ _ _ _ _ _ Hc) by (by rewrite <- list_elem_of_In).
    apply lookup_insert_eq.
  - destruct (validate f _ _ _) as [r|e]; [|done]. by eapply IH.
Qed.



(** The effect returns when every pattern of the schema compiles. *)
Lemma collect_errors_returns formData auditLog schema :
  Forall (patterns_compile RegExp_compile) schema ->
  forall acc, exists errors, collect formData auditLog acc schema = Returned errors.
Proof.
  induction 1 as [|f schema Hf _ IH]; intros acc; [by eexists|].
  cbn [collect_errors].
  destruct (run_rules_returns RegExp_compile ageInYears f (get formData (Field.id f))
              formData auditLog (Field.validations f)) as (res & Hres & _).
  { intros rule Hin. apply check_rule_returns.
    intros _ p Ht Hp Hne. by apply (Hf rule p). }
  unfold validateField. rewrite Hres. apply IH.
Qed.

(** A verdict that carries the flag blocks, whatever the exceptions. *)
Lemma flagged_verdict_blocks schema errors exceptions formData field res :
  In field schema -> errors !! Field.id field = Some res ->
  ValidationResult.blockSubmission res = Some true ->
  canSubmit schema errors exceptions formData = false.
Proof.
  intros Hin Hl Hb. unfold canSubmit.
  assert (hasStrictErrors schema errors exceptions = true) as ->; [|done].
  apply hasStrictErrors_spec. destruct (find_field_In _ _ Hin) as [field' Hf].
  exists (Field.id field), res, field'. split; [done|]. split; [done | by left].
Qed.

(** C3 (amended).  In a schema with unique field ids, for every record in
    which a [notEquals] rule carrying the [blockSubmission] flag is the rule
    that fails for its field, [canSubmit] is false whatever the exception
    map holds, be the field strict or soft.  In the shipped schema every
    record whose [interviewStatus] is ["Rejected"] has [canSubmit] false, and
    the validation effect does return on it when the engine accepts the
    patterns of the schema. *)
Theorem blockSubmission_overrides_exceptions :
  (forall schema formData auditLog errors exceptions field rule,
      NoDup (map Field.id schema) -> In field schema ->
      effect schema formData auditLog = Returned errors ->
      Rule.type rule = notEquals -> Rule.blockSubmission rule = Some true ->
      fails_first RegExp_compile ageInYears field (get formData (Field.id field))
        formData auditLog rule ->
      canSubmit schema errors exceptions formData = false)
  /\ (forall formData auditLog errors exceptions,
        get formData "interviewStatus" = VStr "Rejected" ->
        effect (fields rulesConfig) formData auditLog = Returned errors ->
        canSubmit (fields rulesConfig) errors exceptions formData = false)
  /\ (forall formData auditLog exceptions,
        Forall (patterns_compile RegExp_compile) (fields rulesConfig) ->
        get formData "interviewStatus" = VStr "Rejected" ->
        exists errors,
          effect (fields rulesConfig) formData auditLog = Returned errors
          /\ canSubmit (fields rulesConfig) errors exceptions formData = false).
Proof.
  assert (Hgen : forall schema formData auditLog errors exceptions field rule,
             NoDup (map Field.id schema) -> In field schema ->
             effect schema formData auditLog = Returned errors ->
             Rule.type rule = notEquals -> Rule.blockSubmission rule = Some true ->
             fails_first RegExp_compile ageInYears field (get formData (Field.id field))
               formData auditLog rule ->
             canSubmit schema errors exceptions formData = false).
  { intros schema formData auditLog errors exceptions field rule
      Hnd Hin He Ht Hb (pre & post & res & Hv & Hpre & Hrule).
    destruct (check_rule_failure _ _ _ _ _ _ _ _ Hrule) as (Hinv & _ & _ & Hflag).
    rewrite Ht, Hb in Hflag. cbn in Hflag.
    apply (flagged_verdict_blocks _ _ _ _ field res); [done | | done].
    apply (collect_errors_failure formData auditLog schema ∅); try done.
    unfold validateField. rewrite Hv. by apply run_rules_first_failure. }
  assert (Hship : forall formData auditLog errors exceptions,
             get formData "interviewStatus" = VStr "Rejected" ->
             effect (fields rulesConfig) formData auditLog = Returned errors ->
             canSubmit (fields rulesConfig) errors exceptions formData = false).
  { intros formData auditLog errors exceptions Hrej He.
    apply (Hgen _ formData auditLog errors exceptions interviewStatus rejected_rule);
      try done.
    - apply (bool_decide_unpack _). by vm_compute.
    - cbn. tauto.
    - exists [simple_rule required "Interview status is required"], [].
      cbn [Field.id interviewStatus strict_field]. rewrite Hrej.
      eexists. split; [reflexivity|]. split; [|reflexivity].
      intros r [<-|[]]. reflexivity. }
  split; [exact Hgen|]. split; [exact Hship|].
  intros formData auditLog exceptions Hpat Hrej.
  destruct (collect_errors_returns formData auditLog _ Hpat ∅) as [errors He].
  exists errors. split; [exact He|]. by apply (Hship formData auditLog).
Qed.

(** C10.  [missingRequired] counts [undefined], [null] and the empty
    string only: a field that holds [false] is not missing.  So when a soft
    field holds [false], its [required] rule is the rule that fails, an
    active exception with a rationale accepted by [checkRationale] backs
    it, no verdict of another id blocks and no other required field is missing,
    [canSubmit] is true although the verdict of the field is the failure of
    its [required] rule. *)
Theorem false_on_exempted_soft_field_submits
    schema errors exceptions formData auditLog field rule exc :
  find_field schema (Field.id field) = Some field ->
  Field.category field = soft ->
  get formData (Field.id field) = VBool false ->
  Rule.type rule = required ->
  fails_first RegExp_compile ageInYears field (VBool false) formData auditLog rule ->
  errors !! Field.id field = Some (failure true (Rule.message rule)) ->
  exceptions !! Field.id field = Some exc ->
  active exc = true ->
  RationaleResult.valid (checkRationale field (rationale exc)) = true ->
  ~ hasBlockingFailure schema (delete (Field.id field) errors) exceptions ->
  (forall other, In other schema -> Field.id other <> Field.id field ->
                 has_required_rule other -> ~ holds_nothing formData (Field.id other)) ->
  validate field (VBool false) formData auditLog
    = Returned (failure true (Rule.message rule))
  /\ ~ holds_nothing formData (Field.id field)
  /\ missingRequired schema formData = false
  /\ canSubmit schema errors exceptions formData = true.
Proof.
  intros Hfind Hsoft Hval Ht (pre & post & res & Hv & Hpre & Hrule)
    Herr Hexc Hact Hrat Hothers Hmissing.
  assert (Hres : res = failure true (Rule.message rule)).
  { unfold check_rule in Hrule. rewrite Ht, Hsoft in Hrule. cbn in Hrule.
    rewrite (bool_decide_eq_true_2 _ eq_refl) in Hrule. congruence. }
  subst res.
  assert (Hnot : ~ holds_nothing formData (Field.id field)).
  { unfold holds_nothing. rewrite Hval. by intros [|[|]]. }
  assert (Hmiss : missingRequired schema formData = false).
  { apply not_true_is_false. rewrite missingRequired_spec.
    intros (other & Hin & Hr & Hn).
    destruct (decide (Field.id other = Field.id field)) as [Heq|Hne].
    - apply Hnot. by rewrite <- Heq.
    - by apply (Hmissing other). }
  split; [unfold validateField; rewrite Hv; by apply run_rules_first_failure|].
  split; [done|]. split; [done|].
  unfold canSubmit. rewrite Hmiss.
  assert (hasStrictErrors schema errors exceptions = false) as ->; [|done].
  apply not_true_is_false. rewrite hasStrictErrors_spec.
  intros (id & result & f & Hl & Hf & Hb).
  destruct (decide (id = Field.id field)) as [->|Hne].
  - rewrite Herr in Hl. injection Hl as <-.
    rewrite Hfind in Hf. injection Hf as <-.
    destruct Hb as [Hb|(_ & [Hc|(_ & [Hn|(e & He & _ & Hr)])])].
    + discriminate.
    + congruence.
    + specialize (Hn exc Hexc). congruence.
    + rewrite Hexc in He. injection He as <-. congruence.
  - apply Hothers. exists id, result, f.
    split; [by rewrite lookup_delete_ne | done].
Qed.

End GateProperties.

Lemma patterns_compile_shipped :
  Forall (patterns_compile subset_engine) (fields rulesConfig).
Proof.
  repeat constructor; intros rule p Hin Ht Hp Hne; cbn in Hin;
    repeat (destruct Hin as [<-|Hin]; [try discriminate|]); try done;
    injection Hp as <-; vm_compute; by eexists.
Defined.

Lemma blockSubmission_overrides_exceptions_witness :
  (exists errors,
      validationEffect subset_engine age_unknown (fields rulesConfig)
        {[ "interviewStatus" := VStr "Rejected" ]} [] = Returned errors
      /\ canSubmit (fields rulesConfig) errors
           {[ "interviewStatus" := on "approved by the dean as a special case" ]}
           {[ "interviewStatus" := VStr "Rejected" ]} = false)
  /\ canSubmit [decision_field]
       {[ "decision" :=
            {| ValidationResult.valid := false; ValidationResult.error := VUndefined;
               ValidationResult.isSoft := true;
               ValidationResult.blockSubmission := Some true |} ]}
       {[ "decision" := on "approved by the dean as a special case" ]}
       {[ "decision" := VStr "Rejected" ]} = false.
Proof.
  destruct (blockSubmission_overrides_exceptions subset_engine age_unknown) as (Hg & _ & H).
  split; [apply H; [exact patterns_compile_shipped | reflexivity]|].
  apply (Hg [decision_field] {[ "decision" := VStr "Rejected" ]} [] _ _
           decision_field rejected_rule).
  - apply (bool_decide_unpack _). by vm_compute.
  - by left.
  - vm_compute. reflexivity.
  - reflexivity.
  - reflexivity.
  - exists [], []. eexists. split; [reflexivity|]. split; [by intros r []|].
    vm_compute. reflexivity.
Defined.

(** C3 as stated fails when the flag sits on a rule of another kind:
    the verdict does not carry it, and an exception lets the record through. *)
Lemma flag_on_other_rule_is_dropped :
  Rule.blockSubmission flagged_minimum_rule = Some true
  /\ fails_first subset_engine age_unknown aptitude_field (VStr "10")
       {[ "aptitude" := VStr "10" ]} [] flagged_minimum_rule
  /\ exists errors,
       validationEffect subset_engine age_unknown [aptitude_field]
         {[ "aptitude" := VStr "10" ]} [] = Returned errors
       /\ canSubmit [aptitude_field] errors
            {[ "aptitude" := on "cleared by the admissions panel on appeal" ]}
            {[ "aptitude" := VStr "10" ]} = true.
Proof.
  split; [reflexivity|]. split.
  - exists [], [], (failure true (Some "Minimum score is 40")).
    split; [reflexivity|]. split; [by intros r []|]. vm_compute. reflexivity.
  - eexists. split; [vm_compute; reflexivity|]. vm_compute. reflexivity.
Qed.

Lemma false_on_exempted_soft_field_submits_witness :
  validateField subset_engine age_unknown consent_field (VBool false)
    {[ "consent" := VBool false ]} []
    = Returned (failure true (Some "Consent is required"))
  /\ canSubmit [consent_field]
       {[ "consent" := failure true (Some "Consent is required") ]}
       {[ "consent" := on "approved by the dean as a special case" ]}
       {[ "consent" := VBool false ]} = true.
Proof.
  destruct (false_on_exempted_soft_field_submits subset_engine age_unknown
              [consent_field]
              {[ "consent" := failure true (Some "Consent is required") ]}
              {[ "consent" := on "approved by the dean as a special case" ]}
              {[ "consent" := VBool false ]} [] consent_field
              (simple_rule required "Consent is required")
              (on "approved by the dean as a special case"))
    as (Hv & _ & _ & Hc); try reflexivity.
  - exists [], [], (failure true (Some "Consent is required")).
    split; [reflexivity|]. split; [by intros r [] | reflexivity].
  - intros (id & result & f & Hl & _).
    rewrite delete_singleton_eq, lookup_empty in Hl. discriminate.
  - intros other [<-|[]] Hne. done.
  - split; [exact Hv | exact Hc].
Defined.


(** * Further properties of the evaluator *)

Section EvaluatorExtras.

Variable RegExp_compile : string -> option (string -> bool).
Variable ageInYears : any -> number.

Local Abbreviation check := (check_rule RegExp_compile ageInYears).
Local Abbreviation run := (run_rules RegExp_compile ageInYears).
Local Abbreviation validate := (validateField RegExp_compile ageInYears).
Local Abbreviation collect := (collect_errors RegExp_compile ageInYears).
Local Abbreviation effect := (validationEffect RegExp_compile ageInYears).

Implicit Types (field : Field.t) (value : any) (allData : gmap string any).
Implicit Types (auditLog : list AuditEntry.t) (rule : Rule.t) (res : ValidationResult.t).

(** A returned verdict is the valid one, reached after every rule passed, or
    the verdict of a rule of the list. *)
Lemma run_rules_inv field value allData auditLog rules res :
  run field value allData auditLog rules = Returned res ->
  (res = valid_verdict field
   /\ forall rule, In rule rules -> check field value allData auditLog rule = Returned None)
  \/ exists rule, In rule rules /\ check field value allData auditLog rule = Returned (Some res).
Proof.
  induction rules as [|rule rules IH]; cbn [run_rules].
  - intros [= <-]. left. split; [done | by intros rule []].
  - destruct (check field value allData auditLog rule) as [[r|]|e] eqn:Hc; [| |done].
    + intros [= <-]. right. exists rule. split; [by left | done].
    + intros H. destruct (IH H) as [[-> Hall]|(r & Hin & Hr)].
      * left. split; [done|]. intros r [<-|Hin]; [done | by apply Hall].
      * right. exists r. split; [by right | done].
Qed.

Lemma run_rules_valid_inv field value allData auditLog rules res :
  run field value allData auditLog rules = Returned res ->
  ValidationResult.valid res = true ->
  res = valid_verdict field
  /\ forall rule, In rule rules -> check field value allData auditLog rule = Returned None.
Proof.
  intros Hrun Hv. destruct (run_rules_inv _ _ _ _ _ _ Hrun) as [H|(rule & _ & Hc)]; [done|].
  apply check_rule_failure in Hc as (Hinv & _). congruence.
Qed.

(** X1.  Every verdict of [validateField] reports the category of its field
    in [isSoft], and carries [blockSubmission] only when it is the invalid
    verdict of a [notEquals] rule of the field that carries the flag and
    whose forbidden value is strictly equal to the value. *)
Theorem verdict_flags_come_from_the_field field value allData auditLog res :
  validate field value allData auditLog = Returned res ->
  ValidationResult.isSoft res = bool_decide (Field.category field = soft)
  /\ (ValidationResult.blockSubmission res = Some true ->
      ValidationResult.valid res = false
      /\ exists rule, In rule (Field.validations field)
           /\ Rule.type rule = notEquals
           /\ Rule.blockSubmission rule = Some true
           /\ strict_eq value (Rule.value rule) = true).
Proof.
  intros Hrun. destruct (run_rules_inv _ _ _ _ _ _ Hrun) as [[-> _]|(rule & Hin & Hc)].
  - split; [done | discriminate].
  - destruct (check_rule_failure _ _ _ _ _ _ _ _ Hc) as (Hinv & Hsoft & _ & Hflag).
    split; [done|]. intros Hb. split; [done|]. exists rule. split; [done|].
    rewrite Hb in Hflag. case_bool_decide as Ht; [|done].
    split; [done|]. split; [done|].
    unfold check_rule in Hc. rewrite Ht in Hc.
    by destruct (strict_eq value (Rule.value rule)).
Qed.

(** With unique ids, a field whose verdict is valid leaves no entry. *)
Lemma collect_errors_valid formData auditLog schema :
  forall acc errors field res,
    NoDup (map Field.id schema) -> In field schema ->
    collect formData auditLog acc schema = Returned errors ->
    validate field (get formData (Field.id field)) formData auditLog = Returned res ->
    ValidationResult.valid res = true ->
    errors !! Field.id field = acc !! Field.id field.
Proof.
  induction schema as [|f schema IH]; intros acc errors field res Hnd Hin Hc Hv Hval; [done|].
  cbn [map] in Hnd. apply NoDup_cons in Hnd as [Hf Hnd].
  cbn [collect_errors] in Hc. destruct Hin as [->|Hin].
  - rewrite Hv, Hval in Hc. cbn [negb] in Hc.
    apply (collect_errors_other _ _ _ _ _ _ _ _ Hc). by rewrite <- list_elem_of_In.
  - destruct (validate f _ _ _) as [r|e]; [|done].
    rewrite (IH _ _ _ _ Hnd Hin Hc Hv Hval).
    destruct (negb _); [|done]. apply lookup_insert_ne.
    intros Heq. apply Hf. rewrite list_elem_of_In, Heq. by apply in_map.
Qed.

(** The effect returns only when every field returned a verdict. *)
Lemma collect_errors_validated formData auditLog schema :
  forall acc errors field,
    In field schema ->
    collect formData auditLog acc schema = Returned errors ->
    exists res, validate field (get formData (Field.id field)) formData auditLog = Returned res.
Proof.
  induction schema as [|f schema IH]; intros acc errors field Hin Hc; [done|].
  cbn [collect_errors] in Hc.
  destruct (validate f _ _ _) as [r|e] eqn:Hv; [|done].
  destruct Hin as [<-|Hin]; [by eexists | by eapply IH].
Qed.

(** X2.  In a schema with unique field ids, the map the validation effect
    returns holds, under the id of a field, exactly the invalid verdict of
    that field on the record, and nothing under an id that is not the id of a
    field: a field whose verdict is valid has no entry. *)
Theorem validationEffect_stores_the_failures schema formData auditLog errors :
  NoDup (map Field.id schema) ->
  effect schema formData auditLog = Returned errors ->
  (forall field res,
      In field schema ->
      errors !! Field.id field = Some res
      <-> validate field (get formData (Field.id field)) formData auditLog = Returned res
          /\ ValidationResult.valid res = false)
  /\ (forall id, ~ In id (map Field.id schema) -> errors !! id = None).
Proof.
  intros Hnd He. split.
  - intros field res Hin. split.
    + intros Hl.
      destruct (collect_errors_validated _ _ _ _ _ _ Hin He) as [r Hr].
      destruct (ValidationResult.valid r) eqn:Hv.
      * rewrite (collect_errors_valid _ _ _ _ _ _ _ Hnd Hin He Hr Hv), lookup_empty in Hl.
        discriminate.
      * rewrite (collect_errors_failure _ _ _ _ _ _ _ _ _ Hnd Hin He Hr Hv) in Hl.
        by injection Hl as <-.
    + intros [Hr Hv]. by eapply collect_errors_failure.
  - intros id Hid.
    by rewrite (collect_errors_other _ _ _ _ _ _ _ _ He Hid), lookup_empty.
Qed.

Lemma collect_errors_all_valid formData auditLog schema acc :
  (forall field, In field schema ->
     exists res, validate field (get formData (Field.id field)) formData auditLog = Returned res
                 /\ ValidationResult.valid res = true) ->
  collect formData auditLog acc schema = Returned acc.
Proof.
  induction schema as [|f schema IH]; intros H; [done|].
  cbn [collect_errors]. destruct (H f) as (res & -> & ->); [by left|].
  cbn [negb]. apply IH. intros field Hin. apply H. by right.
Qed.

(** X3.  When every field of the schema has a valid verdict on the record,
    the validation effect stores nothing and the record can be submitted,
    whatever the exception map holds: no required field is missing, since a
    [required] rule that passed has seen a value. *)
Theorem valid_record_can_be_submitted schema formData auditLog exceptions :
  (forall field, In field schema ->
     exists res, validate field (get formData (Field.id field)) formData auditLog = Returned res
                 /\ ValidationResult.valid res = true) ->
  effect schema formData auditLog = Returned ∅
  /\ missingRequired schema formData = false
  /\ canSubmit schema ∅ exceptions formData = true.
Proof.
  intros Hall.
  assert (Hmiss : missingRequired schema formData = false).
  { apply not_true_is_false. rewrite missingRequired_spec.
    intros (field & Hin & (rule & Hr & Ht) & Hn).
    destruct (Hall field Hin) as (res & Hrun & Hv).
    destruct (run_rules_valid_inv _ _ _ _ _ _ Hrun Hv) as [_ Hpass].
    specialize (Hpass rule Hr). unfold check_rule in Hpass. rewrite Ht in Hpass.
    apply holds_nothing_spec in Hn.
    destruct (strict_eq (get formData (Field.id field)) VUndefined),
      (strict_eq (get formData (Field.id field)) VNull),
      (strict_eq (get formData (Field.id field)) (VStr "")); by cbn in *. }
  split; [by apply collect_errors_all_valid|]. split; [done|].
  unfold canSubmit, hasStrictErrors. by rewrite Hmiss, map_to_list_empty.
Qed.

Lemma Qlt_bool_iff (x y : Q) : Qlt_bool x y = true <-> (x < y)%Q.
Proof.
  unfold Qlt_bool. rewrite negb_true_iff, <- not_true_iff_false, Qle_bool_iff.
  split; [apply Qnot_le_lt | apply Qlt_not_le].
Qed.

Lemma num_or_nonzero (q : Q) (d : number) :
  ~ (q == 0)%Q -> num_or (Some (Finite q)) d = Finite q.
Proof.
  intros Hq. unfold num_or, num_truthy.
  destruct (Qeq_bool q 0) eqn:He; [|done]. by apply Qeq_bool_iff in He.
Qed.

Lemma num_or_zero (q : Q) (d : number) :
  (q == 0)%Q -> num_or (Some (Finite q)) d = d.
Proof.
  intros Hq. unfold num_or, num_truthy. apply Qeq_bool_iff in Hq. by rewrite Hq.
Qed.

(** X4.  The bounds of a [range] rule are inclusive: with a non-zero [min]
    and a non-zero [max], a value whose number (the double [Number]
    returns for it) lies between them, the bounds included, passes, and a
    value whose number is below [min] or above [max] fails with the message
    of the rule. *)
Theorem range_bounds_are_inclusive field value allData auditLog rule (lo hi q : Q) :
  Rule.type rule = range ->
  Rule.min rule = Some (Finite lo) -> Rule.max rule = Some (Finite hi) ->
  ~ (lo == 0)%Q -> ~ (hi == 0)%Q ->
  toNumber value = Finite q ->
  ((lo <= q)%Q /\ (q <= hi)%Q -> check field value allData auditLog rule = Returned None)
  /\ ((q < lo)%Q \/ (hi < q)%Q ->
      check field value allData auditLog rule
        = Returned (Some (failure (bool_decide (Field.category field = soft))
                            (Rule.message rule)))).
Proof.
  intros Ht Hmin Hmax Hlo Hhi Hq. unfold check_rule.
  rewrite Ht, Hmin, Hmax, Hq, !num_or_nonzero by done.
  unfold num_gt. cbn [num_lt].
  pose proof (Qlt_bool_iff q lo) as H1. pose proof (Qlt_bool_iff hi q) as H2.
  split.
  - intros [Hl Hh].
    destruct (Qlt_bool q lo); [exfalso; apply (Qlt_not_le q lo); tauto|].
    destruct (Qlt_bool hi q); [exfalso; apply (Qlt_not_le hi q); tauto | done].
  - intros [Hl|Hh].
    + apply H1 in Hl. by rewrite Hl.
    + apply H2 in Hh. rewrite Hh. by destruct (Qlt_bool q lo).
Qed.

(** X5.  A bound of 0 on a [range] rule is no bound: the rule reads
    [rule.min || -Infinity] and [rule.max || Infinity].  With [min] 0 every
    finite value that does not exceed a non-zero [max] passes, the negative
    ones included; with [max] 0 every finite value that is not below a
    non-zero [min] passes. *)
Theorem range_zero_bound_is_no_bound field value allData auditLog rule (lo hi q : Q) :
  Rule.type rule = range ->
  Rule.min rule = Some (Finite lo) -> Rule.max rule = Some (Finite hi) ->
  toNumber value = Finite q ->
  ((lo == 0)%Q -> ~ (hi == 0)%Q -> (q <= hi)%Q ->
   check field value allData auditLog rule = Returned None)
  /\ ((hi == 0)%Q -> ~ (lo == 0)%Q -> (lo <= q)%Q ->
      check field value allData auditLog rule = Returned None).
Proof.
  intros Ht Hmin Hmax Hq. unfold check_rule. rewrite Ht, Hmin, Hmax, Hq.
  unfold num_gt. split.
  - intros Hlo Hhi Hle. rewrite (num_or_zero lo), (num_or_nonzero hi) by done. cbn [num_lt orb].
    destruct (Qlt_bool hi q) eqn:H; [|done].
    apply Qlt_bool_iff in H. by apply Qlt_not_le in H.
  - intros Hhi Hlo Hle. rewrite (num_or_zero hi), (num_or_nonzero lo) by done. cbn [num_lt].
    destruct (Qlt_bool q lo) eqn:H; [|done].
    apply Qlt_bool_iff in H. by apply Qlt_not_le in H.
Qed.

(** X6.  A [noNumbers] rule fails on a string exactly when the string holds
    a decimal digit. *)
Theorem noNumbers_rejects_digits field s allData auditLog rule :
  Rule.type rule = noNumbers ->
  check field (VStr s) allData auditLog rule
    = Returned (Some (failure (bool_decide (Field.category field = soft)) (Rule.message rule)))
  <-> exists c, In c (chars s) /\ is_digit c = true.
Proof.
  intros Ht. unfold check_rule. rewrite Ht, <- digit_re_spec.
  by destruct (RegExp_test digit_re s).
Qed.

Lemma check_conditions_none_applies rule isSoft value allData conds :
  (forall cond, In cond conds -> applies allData cond = false) ->
  check_conditions rule isSoft value allData conds = None.
Proof.
  induction conds as [|cond conds IH]; intros H; [done|].
  cbn [check_conditions]. unfold check_condition. rewrite (H cond) by (by left).
  apply IH. intros c Hc. apply H. by right.
Qed.

(** X7.  A [conditional] rule constrains a value only through a
    sub-condition that applies to the record: when the rule has no
    [conditions], or none of them applies, it passes on every value. *)
Theorem conditional_without_applicable_condition field value allData auditLog rule :
  Rule.type rule = conditional ->
  (forall conds cond, Rule.conditions rule = Some conds -> In cond conds ->
                      applies allData cond = false) ->
  check field value allData auditLog rule = Returned None.
Proof.
  intros Ht H. unfold check_rule. rewrite Ht.
  destruct (Rule.conditions rule) as [conds|] eqn:Hc; [|done].
  rewrite check_conditions_none_applies; [done | by eauto].
Qed.

(** X8.  The thresholds of the shipped [scoreValue] field: a non-empty
    numeric string is valid under [scoreType = "percentage"] exactly when its
    number (the double [Number] returns for it) is at least 60, and under
    [scoreType = "cgpa"] exactly when its number lies between 6 and 10, the
    bounds included. *)
Theorem scoreValue_thresholds (s : string) (q : Q) allData auditLog :
  s <> "" -> stringToNumber s = Finite q ->
  (get allData "scoreType" = VStr "percentage" ->
   validate scoreValue (VStr s) allData auditLog = Returned (valid_verdict scoreValue)
   <-> (60 <= q)%Q)
  /\ (get allData "scoreType" = VStr "cgpa" ->
      validate scoreValue (VStr s) allData auditLog = Returned (valid_verdict scoreValue)
      <-> (6 <= q)%Q /\ (q <= 10)%Q).
Proof.
  intros Hne Hq.
  assert (Hreq : String.eqb s "" = false) by (by apply String.eqb_neq).
  pose proof (Qlt_bool_iff q (inject_Z 60)) as H60.
  pose proof (Qlt_bool_iff q (inject_Z 6)) as H6.
  pose proof (Qlt_bool_iff (inject_Z 10) q) as H10.
  split; intros Hty; unfold validateField; cbn [scoreValue soft_field Field.validations run_rules];
    unfold check_rule; cbn [simple_rule conditional_rule Rule.type Rule.conditions strict_eq];
    rewrite Hreq; cbn [orb check_conditions]; unfold check_condition, applies, requires_fails,
      bounds_fail, num_gt; cbn [Cond.when Cond.is_ Cond.in_ Cond.requires Cond.min Cond.max];
    rewrite Hty; cbn [strict_eq String.eqb negb andb orb toNumber]; rewrite Hq;
    cbn [num_lt int].
  - cbn. destruct (Qlt_bool q (inject_Z 60)); split; try done.
    + intros H. exfalso. apply (Qlt_not_le q (inject_Z 60)); tauto.
    + intros _. apply Qnot_lt_le. intros H. apply H60 in H. discriminate.
  - cbn. destruct (Qlt_bool q (inject_Z 6)); [|destruct (Qlt_bool (inject_Z 10) q)];
      split; try done.
    + intros [H _]. exfalso. apply (Qlt_not_le q (inject_Z 6)); tauto.
    + intros [_ H]. exfalso. apply (Qlt_not_le (inject_Z 10) q); tauto.
    + intros _. split; apply Qnot_lt_le; intros H; [apply H6 in H | apply H10 in H];
        discriminate.
Qed.

(** X9.  A string that passes an [emailFormat] rule holds exactly one [@]
    and no white space. *)
Theorem accepted_email_has_one_at field s allData auditLog rule :
  Rule.type rule = emailFormat ->
  check field (VStr s) allData auditLog rule = Returned None ->
  count_occ ascii_dec (chars s) "@"%char = 1%nat
  /\ Forall (fun c => is_space c = false) (chars s).
Proof.
  intros Ht Hc. unfold check_rule in Hc. rewrite Ht in Hc.
  destruct (RegExp_test email_re s) eqn:He; [|done].
  apply email_re_spec in He as (l & d & t & -> & Hl & Hd & Htld).
  rewrite !chars_append.
  assert (Hpart : forall p, email_part p ->
             count_occ ascii_dec (chars p) "@"%char = 0%nat
             /\ Forall (fun c => is_space c = false) (chars p)).
  { intros p [_ Hp]. split.
    - apply count_occ_not_In. intros Hin.
      rewrite Forall_forall in Hp. apply list_elem_of_In in Hin. by destruct (Hp _ Hin).
    - eapply Forall_impl; [exact Hp|]. by intros c [? _]. }
  destruct (Hpart l Hl) as [Cl Fl], (Hpart d Hd) as [Cd Fd], (Hpart t Htld) as [Ct Ft].
  split.
  - rewrite !count_occ_app, Cl, Cd, Ct. reflexivity.
  - repeat (apply Forall_app; split); try done; by repeat constructor.
Qed.

End EvaluatorExtras.

(** * Further properties of the rationale gate and of the submission gate *)

(** On strings of code units up to U+00FF, lower-casing keeps the length. *)
Lemma length_toLowerCase (s : string) : String.length (toLowerCase s) = String.length s.
Proof. induction s as [|c s IH]; cbn; [done | by rewrite IH]. Qed.

Lemma contains_ci_extend (s kw pre post : string) :
  contains_ci s kw -> contains_ci (pre +:+ s +:+ post) kw.
Proof.
  intros (a & mid & b & -> & H). exists (pre +:+ a), mid, (b +:+ post).
  split; [|done]. by rewrite !append_assoc.
Qed.

(** X10.  For a field, a rationale and added text that are made of code
    units up to U+00FF (the strings of this embedding; [toLowerCase] maps
    them unit by unit): a rationale that [checkRationale] accepts stays
    accepted when text is added before or after it. *)
Theorem accepted_rationale_stays_accepted (field : Field.t) (rationale pre post : string) :
  RationaleResult.valid (checkRationale field rationale) = true ->
  RationaleResult.valid (checkRationale field (pre +:+ rationale +:+ post)) = true.
Proof.
  intros Hok. apply not_false_iff_true. intros Hbad.
  apply not_false_iff_true in Hok. apply Hok. apply checkRationale_invalid_iff.
  apply checkRationale_invalid_iff in Hbad as [He|[(n & Hn & Hl)|(kws & Hk & Hne & Hnone)]].
  - left. apply (f_equal String.length) in He. rewrite !length_append in He.
    destruct rationale; [done | cbn in He; lia].
  - right; left. exists n. split; [done|]. rewrite !length_append in Hl. lia.
  - right; right. exists kws. split; [done|]. split; [done|].
    intros kw Hin Hc. apply (Hnone kw Hin). by apply contains_ci_extend.
Qed.

(** X11.  For rationales made of code units up to U+00FF (the strings of
    this embedding, whose length [toLowerCase] keeps), the verdict of
    [checkRationale] does not depend on the letter case of the rationale:
    two rationales that are equal after lower-casing get the same result,
    message included. *)
Theorem checkRationale_ignores_case (field : Field.t) (r r' : string) :
  ci_equal r r' -> checkRationale field r = checkRationale field r'.
Proof.
  unfold ci_equal. intros H.
  assert (Hlen : String.length r = String.length r').
  { by rewrite <- (length_toLowerCase r), H, length_toLowerCase. }
  assert (Hemp : String.eqb r "" = String.eqb r' "").
  { destruct r, r'; try done; discriminate. }
  unfold checkRationale. by rewrite Hemp, Hlen, H.
Qed.

(** X12.  An invalid verdict of a strict field always blocks: whatever the
    exception map and the record hold, [canSubmit] is false. *)
Theorem strict_failure_always_blocks (schema : list Field.t)
    (validationErrors : gmap string ValidationResult.t) (exceptions : gmap string Exception)
    (formData : gmap string any) (id : string) (field : Field.t) (res : ValidationResult.t) :
  find_field schema id = Some field -> Field.category field = strict ->
  validationErrors !! id = Some res -> ValidationResult.valid res = false ->
  canSubmit schema validationErrors exceptions formData = false.
Proof.
  intros Hf Hc Hl Hv. unfold canSubmit.
  assert (hasStrictErrors schema validationErrors exceptions = true) as ->; [|done].
  apply hasStrictErrors_spec. exists id, res, field.
  split; [done|]. split; [done|]. right. split; [done | by left].
Qed.

(** X13.  No exception waives an empty required field: when a field with a
    [required] rule holds [undefined], [null] or the empty string,
    [canSubmit] is false whatever the verdict map and the exception map
    hold. *)
Theorem empty_required_field_always_blocks (schema : list Field.t)
    (validationErrors : gmap string ValidationResult.t) (exceptions : gmap string Exception)
    (formData : gmap string any) :
  missing_required schema formData ->
  canSubmit schema validationErrors exceptions formData = false.
Proof.
  intros H. apply missingRequired_spec in H. unfold canSubmit. rewrite H.
  apply andb_false_r.
Qed.

(** X14.  An exception recorded for an id that has no verdict changes
    nothing: [canSubmit] is the same with and without it. *)
Theorem exceptions_matter_only_for_failed_fields (schema : list Field.t)
    (validationErrors : gmap string ValidationResult.t) (exceptions : gmap string Exception)
    (formData : gmap string any) (id : string) (exc : Exception) :
  validationErrors !! id = None ->
  canSubmit schema validationErrors (<[id := exc]> exceptions) formData
  = canSubmit schema validationErrors exceptions formData.
Proof.
  intros Hnone. unfold canSubmit. f_equal. f_equal. unfold hasStrictErrors.
  apply eq_true_iff_eq. rewrite !existsb_exists.
  split; intros ([id' res] & Hin & Hb); exists (id', res); (split; [done|]);
    apply list_elem_of_In, elem_of_map_to_list in Hin;
    assert (id <> id') by (intros ->; congruence);
    unfold blocks in *; by rewrite lookup_insert_ne in * by done.
Qed.

(** X15.  A verdict stored under an id that is not the id of a field of the
    schema never blocks: [canSubmit] is the same with and without it. *)
Theorem verdicts_of_unknown_ids_never_block (schema : list Field.t)
    (validationErrors : gmap string ValidationResult.t) (exceptions : gmap string Exception)
    (formData : gmap string any) (id : string) (res : ValidationResult.t) :
  find_field schema id = None ->
  canSubmit schema (<[id := res]> validationErrors) exceptions formData
  = canSubmit schema (delete id validationErrors) exceptions formData.
Proof.
  intros Hnone. unfold canSubmit. f_equal. f_equal.
  apply eq_true_iff_eq. rewrite !hasStrictErrors_spec.
  split; intros (id' & r & f & Hl & Hf & H);
    (destruct (decide (id' = id)) as [->|Hne]; [congruence|]);
    exists id', r, f; (split; [|done]).
  - rewrite lookup_insert_ne in Hl by done. by rewrite lookup_delete_ne.
  - rewrite lookup_delete_ne in Hl by done. by rewrite lookup_insert_ne.
Qed.

Lemma hasStrictErrors_singleton (schema : list Field.t) (exceptions : gmap string Exception)
    (id : string) (res : ValidationResult.t) :
  hasStrictErrors schema {[ id := res ]} exceptions = blocks schema exceptions (id, res).
Proof.
  unfold hasStrictErrors. rewrite map_to_list_singleton. cbn [existsb]. apply orb_false_r.
Qed.

(** X16.  The way out of a soft failure: while no exception is recorded for
    the field, its invalid verdict blocks; after [toggleException] it still
    blocks, since the new exception has an empty rationale; after
    [handleRationaleChange] the record can be submitted exactly when
    [checkRationale] accepts the rationale (no other verdict, no required
    field missing, and the verdict not carrying [blockSubmission]). *)
Theorem soft_failure_needs_an_accepted_rationale (schema : list Field.t)
    (state : AppState.t) (id : string) (field : Field.t) (res : ValidationResult.t) :
  find_field schema id = Some field -> Field.category field = soft ->
  ValidationResult.valid res = false ->
  ValidationResult.blockSubmission res <> Some true ->
  AppState.exceptions state !! id = None ->
  missingRequired schema (AppState.formData state) = false ->
  canSubmit schema {[ id := res ]} (AppState.exceptions state) (AppState.formData state)
    = false
  /\ canSubmit schema {[ id := res ]}
       (AppState.exceptions (toggleException id state))
       (AppState.formData (toggleException id state)) = false
  /\ forall rationale,
       canSubmit schema {[ id := res ]}
         (AppState.exceptions (handleRationaleChange id rationale (toggleException id state)))
         (AppState.formData (handleRationaleChange id rationale (toggleException id state)))
       = RationaleResult.valid (checkRationale field rationale).
Proof.
  intros Hf Hc Hv Hb Hnone Hmiss.
  assert (Hgate : forall exceptions,
             canSubmit schema {[ id := res ]} exceptions (AppState.formData state)
             = negb match exceptions !! id with
                    | Some exc =>
                        negb (active exc)
                        || negb (RationaleResult.valid (checkRationale field (rationale exc)))
                    | None => true
                    end).
  { intros exceptions. unfold canSubmit.
    rewrite Hmiss, hasStrictErrors_singleton. unfold blocks. rewrite Hf, Hc, Hv.
    rewrite (bool_decide_eq_false_2 (soft = strict)) by done.
    rewrite (bool_decide_eq_true_2 (soft = soft)) by done.
    rewrite (bool_decide_eq_false_2 _ Hb). cbn [negb andb].
    destruct (match exceptions !! id with Some _ => _ | None => _ end); done. }
  cbn [toggleException handleRationaleChange AppState.exceptions AppState.formData].
  rewrite !Hgate. unfold with_rationale, toggled, active_at, rationale_at.
  rewrite Hnone. split; [done|]. split.
  - by rewrite lookup_insert_eq.
  - intros r. rewrite Hgate, !lookup_insert_eq. cbn [active rationale negb orb].
    apply negb_involutive.
Qed.

(** * Properties of the handlers, of the audit table and of the dashboard *)

Lemma active_entries_lookup (exceptions : gmap string Exception) (id : string) :
  active_entries exceptions !! id
  = if active_at exceptions id then exceptions !! id else None.
Proof.
  unfold active_entries, active_at.
  destruct (exceptions !! id) as [exc|] eqn:He.
  - destruct (active exc) eqn:Ha.
    + apply map_lookup_filter_Some. split; [done | by cbn].
    + apply map_lookup_filter_None. right. intros x Hx. cbn. congruence.
  - apply map_lookup_filter_None. by left.
Qed.

Lemma activeExceptionsCount_insert (exceptions : gmap string Exception)
    (id : string) (exc : Exception) :
  activeExceptionsCount (<[id := exc]> exceptions)
  = ((if active exc then 1 else 0)
     + (if active_at exceptions id
        then pred (activeExceptionsCount exceptions)
        else activeExceptionsCount exceptions))%nat.
Proof.
  rewrite !activeExceptionsCount_size.
  pose proof (active_entries_lookup exceptions id) as Hl.
  unfold active_entries in *.
  destruct (active exc) eqn:Ha.
  - rewrite map_filter_insert_True by done. rewrite map_size_insert, Hl.
    destruct (active_at exceptions id) eqn:Hat.
    + unfold active_at in Hat. destruct (exceptions !! id) eqn:He; [|done]. cbn.
      assert (size (filter (fun kv => active kv.2 = true) exceptions) <> 0%nat); [|lia].
      intros H0. apply map_size_empty_iff in H0.
      by rewrite H0, lookup_empty in Hl.
    + done.
  - rewrite map_filter_insert_False by (cbn; congruence).
    rewrite map_filter_delete, map_size_delete, Hl.
    destruct (active_at exceptions id) eqn:Hat; [|done].
    unfold active_at in Hat. by destruct (exceptions !! id).
Qed.

Lemma active_at_positive (exceptions : gmap string Exception) (id : string) :
  active_at exceptions id = true -> (0 < activeExceptionsCount exceptions)%nat.
Proof.
  intros Hat. rewrite activeExceptionsCount_size.
  pose proof (active_entries_lookup exceptions id) as Hl. rewrite Hat in Hl.
  unfold active_at in Hat. destruct (exceptions !! id) as [exc|] eqn:He; [|done].
  destruct (decide (size (active_entries exceptions) = 0%nat)) as [H0|]; [|lia].
  apply map_size_empty_iff in H0. by rewrite H0, lookup_empty in Hl.
Qed.

(** X17.  [toggleException] moves the number of active exceptions by exactly
    one: down when the exception of the id was active, up otherwise (also
    when none was recorded); it keeps the rationale, and toggling twice
    brings the number back. *)
Theorem toggleException_moves_the_count_by_one (id : string) (state : AppState.t) :
  (active_at (AppState.exceptions state) id = true ->
   S (activeExceptionsCount (AppState.exceptions (toggleException id state)))
   = activeExceptionsCount (AppState.exceptions state))
  /\ (active_at (AppState.exceptions state) id = false ->
      activeExceptionsCount (AppState.exceptions (toggleException id state))
      = S (activeExceptionsCount (AppState.exceptions state)))
  /\ rationale_at (AppState.exceptions (toggleException id state)) id
     = rationale_at (AppState.exceptions state) id
  /\ activeExceptionsCount
       (AppState.exceptions (toggleException id (toggleException id state)))
     = activeExceptionsCount (AppState.exceptions state).
Proof.
  cbn [toggleException AppState.exceptions].
  set (ex := AppState.exceptions state).
  assert (Hlook : forall e, active_at (toggled id e) id = negb (active_at e id)
                            /\ rationale_at (toggled id e) id = rationale_at e id).
  { intros e. unfold toggled.
    split; [unfold active_at at 1 | unfold rationale_at at 1]; by rewrite lookup_insert_eq. }
  assert (Hcount : forall e,
             activeExceptionsCount (toggled id e)
             = if active_at e id then pred (activeExceptionsCount e)
               else S (activeExceptionsCount e)).
  { intros e. unfold toggled. rewrite activeExceptionsCount_insert. cbn [active].
    by destruct (active_at e id). }
  split; [|split; [|split]].
  - intros Hat. rewrite Hcount, Hat. pose proof (active_at_positive _ _ Hat). lia.
  - intros Hat. by rewrite Hcount, Hat.
  - apply Hlook.
  - rewrite Hcount. destruct (Hlook ex) as [-> _]. rewrite Hcount.
    destruct (active_at ex id) eqn:Hat; cbn [negb]; [|done].
    pose proof (active_at_positive _ _ Hat). lia.
Qed.

(** X18.  [handleRationaleChange] never changes the number of active
    exceptions, hence never the flag: it stores the rationale under the id
    and keeps the [active] state of the id. *)
Theorem handleRationaleChange_keeps_the_flag (config : RulesConfig) (id rationale : string)
    (state : AppState.t) :
  activeExceptionsCount (AppState.exceptions (handleRationaleChange id rationale state))
  = activeExceptionsCount (AppState.exceptions state)
  /\ isFlagged config (AppState.exceptions (handleRationaleChange id rationale state))
     = isFlagged config (AppState.exceptions state)
  /\ rationale_at (AppState.exceptions (handleRationaleChange id rationale state)) id
     = rationale
  /\ active_at (AppState.exceptions (handleRationaleChange id rationale state)) id
     = active_at (AppState.exceptions state) id.
Proof.
  cbn [handleRationaleChange AppState.exceptions].
  set (ex := AppState.exceptions state).
  assert (Hcount : activeExceptionsCount (with_rationale id rationale ex)
                   = activeExceptionsCount ex).
  { unfold with_rationale. rewrite activeExceptionsCount_insert. cbn [active].
    destruct (active_at ex id) eqn:Hat; [|done].
    pose proof (active_at_positive _ _ Hat). lia. }
  split; [done|]. split; [unfold isFlagged; by rewrite Hcount|].
  unfold with_rationale.
  split; [unfold rationale_at | unfold active_at at 1]; by rewrite lookup_insert_eq.
Qed.

(** X19.  [deleteEntry] undoes [handleSubmit] on the audit log: when no
    stored entry has the id of the new one, deleting that id after the
    submission gives the log back.  [handleSubmit] itself puts the new entry
    first, keeps the stored entries behind it and resets the form. *)
Theorem deleteEntry_undoes_handleSubmit (config : RulesConfig) (state prev : AppState.t)
    (id timestamp : string) :
  (forall e, In e (AppState.auditLog prev) -> AuditEntry.id e <> id) ->
  AppState.auditLog (deleteEntry id (handleSubmit config state id timestamp prev))
  = AppState.auditLog prev
  /\ AppState.auditLog (handleSubmit config state id timestamp prev)
     = newEntry config state id timestamp :: AppState.auditLog prev
  /\ AppState.formData (handleSubmit config state id timestamp prev) = blank_form
  /\ AppState.exceptions (handleSubmit config state id timestamp prev) = ∅.
Proof.
  intros Hfresh. split; [|done].
  cbn [deleteEntry handleSubmit AppState.auditLog List.filter newEntry AuditEntry.id].
  rewrite String.eqb_refl. cbn [negb].
  induction (AppState.auditLog prev) as [|e l IH]; [done|].
  cbn [List.filter]. destruct (String.eqb_spec (AuditEntry.id e) id) as [Heq|Hne].
  - exfalso. by apply (Hfresh e); [left|].
  - cbn [negb]. f_equal. apply IH. intros e' Hin. apply Hfresh. by right.
Qed.

(** X20.  After a submission the form cannot be submitted again as it is:
    in a schema with a required field other than [scoreType] and
    [offerLetterSent], [canSubmit] is false on the state [handleSubmit]
    leaves, whatever the verdict map and the exception map hold. *)
Theorem form_after_submission_is_blocked (config : RulesConfig) (schema : list Field.t)
    (state prev : AppState.t) (id timestamp : string) (field : Field.t)
    (validationErrors : gmap string ValidationResult.t) (exceptions : gmap string Exception) :
  In field schema -> has_required_rule field ->
  Field.id field <> "scoreType" -> Field.id field <> "offerLetterSent" ->
  canSubmit schema validationErrors exceptions
    (AppState.formData (handleSubmit config state id timestamp prev)) = false.
Proof.
  intros Hin Hreq H1 H2. cbn [handleSubmit AppState.formData].
  unfold canSubmit.
  assert (missingRequired schema blank_form = true) as ->; [|apply andb_false_r].
  apply missingRequired_spec. exists field. split; [done|]. split; [done|].
  left. unfold get, blank_form.
  rewrite lookup_insert_ne by done. by rewrite lookup_singleton_ne.
Qed.

Lemma Forall_List_filter {A} (P : A -> Prop) (f : A -> bool) (l : list A) :
  Forall P l -> Forall P (List.filter f l).
Proof.
  induction 1 as [|x l Hx _ IH]; [constructor|]. cbn [List.filter].
  destruct (f x); [by constructor | done].
Qed.

Lemma reachable_consistent (config : RulesConfig) (s : AppState.t) :
  reachable config s -> Forall (consistent_entry config) (AppState.auditLog s).
Proof.
  induction 1 as [|s df de _ IH|s id value _ IH|s id _ IH|s id r _ IH|s s' id ts _ _ _ IH
                  |s id _ IH|s confirmed _ IH].
  - constructor.
  - exact IH.
  - exact IH.
  - exact IH.
  - exact IH.
  - cbn [handleSubmit AppState.auditLog]. constructor; [|exact IH]. by split.
  - cbn [deleteEntry AppState.auditLog]. by apply Forall_List_filter.
  - destruct confirmed; [constructor | exact IH].
Qed.

Lemma filter_length_ext {A} (f g : A -> bool) (l : list A) :
  Forall (fun x => f x = g x) l -> length (List.filter f l) = length (List.filter g l).
Proof.
  induction 1 as [|x l Hx _ IH]; [done|]. cbn [List.filter]. rewrite Hx.
  destruct (g x); cbn; by rewrite IH.
Qed.

(** X21.  In every state reached from the initial one by the draft
    restoration and the handlers, each
    entry of the audit log stores the number of active exceptions of its own
    snapshot, and is flagged exactly when that number exceeds
    [maxExceptions].  With the shipped configuration the "Flagged Entries"
    figure of the dashboard is therefore the "3+ Exc" bar, and the "Flagged
    (3+)" filter of the table selects exactly the flagged entries. *)
Theorem audit_log_entries_are_consistent (s : AppState.t) :
  reachable rulesConfig s ->
  Forall (consistent_entry rulesConfig) (AppState.auditLog s)
  /\ flaggedEntries (AppState.auditLog s) = exceptionBucket3plus (AppState.auditLog s)
  /\ Forall (fun e => matchesFilter (by_count (int 3)) e = AuditEntry.isFlagged e)
       (AppState.auditLog s).
Proof.
  intros Hr. pose proof (reachable_consistent _ _ Hr) as Hc.
  assert (Hflag : Forall (fun e => AuditEntry.isFlagged e
                                   = (3 <=? AuditEntry.exceptionCount e)%nat)
                    (AppState.auditLog s)).
  { eapply Forall_impl; [exact Hc|]. intros e [_ ->]. cbn [rulesConfig systemRules maxExceptions].
    apply eq_true_iff_eq. rewrite Z.gtb_ltb, Z.ltb_lt, Nat.leb_le. lia. }
  split; [done|]. split.
  - unfold flaggedEntries, exceptionBucket3plus. by apply filter_length_ext.
  - eapply Forall_impl; [exact Hflag|]. by intros e ->.
Qed.

(** X22.  The four bars of the exception chart split the audit log: every
    entry is counted in exactly one of "0 Exc", "1 Exc", "2 Exc" and
    "3+ Exc", and the entries with an exception are the ones outside
    "0 Exc". *)
Theorem exception_buckets_split_the_log (auditLog : list AuditEntry.t) :
  (exceptionBucket 0 auditLog + exceptionBucket 1 auditLog
   + exceptionBucket 2 auditLog + exceptionBucket3plus auditLog)%nat = length auditLog
  /\ (entriesWithExceptions auditLog + exceptionBucket 0 auditLog)%nat = length auditLog.
Proof.
  unfold exceptionBucket, exceptionBucket3plus, entriesWithExceptions.
  induction auditLog as [|e l [IH1 IH2]]; [done|]. cbn [List.filter].
  destruct (Nat.eqb_spec (AuditEntry.exceptionCount e) 0),
    (Nat.eqb_spec (AuditEntry.exceptionCount e) 1),
    (Nat.eqb_spec (AuditEntry.exceptionCount e) 2),
    (Nat.leb_spec 3 (AuditEntry.exceptionCount e)),
    (Nat.ltb_spec 0 (AuditEntry.exceptionCount e)); cbn [length]; lia.
Qed.

(** ** The audit table *)

Lemma visibleEntries_Some (q : string) (f : CountFilter) (auditLog rows : list AuditEntry.t) :
  visibleEntries q f auditLog = Some rows ->
  rows = List.filter (fun e => bool_decide (matchesSearch q e = Some true) && matchesFilter f e)
           auditLog
  /\ Forall (fun e => matchesSearch q e <> None) auditLog.
Proof.
  revert rows. induction auditLog as [|e l IH]; intros rows; cbn [visibleEntries List.filter].
  - intros [= <-]. by split.
  - destruct (matchesSearch q e) as [m|] eqn:Hm; [|done].
    destruct (visibleEntries q f l) as [rs|]; [|done]. intros [= <-].
    destruct (IH rs eq_refl) as [-> Hall]. split; [|constructor; [congruence | done]].
    destruct m; [rewrite bool_decide_eq_true_2 by done | rewrite bool_decide_eq_false_2 by done];
      cbn [andb]; by destruct (matchesFilter f e).
Qed.

Lemma visibleEntries_None (q : string) (f : CountFilter) (auditLog : list AuditEntry.t) :
  visibleEntries q f auditLog = None <-> exists e, In e auditLog /\ matchesSearch q e = None.
Proof.
  induction auditLog as [|e l IH]; cbn [visibleEntries].
  - split; [done | by intros (e & [] & _)].
  - destruct (matchesSearch q e) as [m|] eqn:Hm.
    + destruct (visibleEntries q f l) as [rs|].
      * split; [done|]. intros (e' & [<-|Hin] & He'); [congruence|].
        assert (Some rs = None) as H; [|done]. apply IH. by exists e'.
      * split; [|done]. intros _. destruct (proj1 IH eq_refl) as (e' & Hin & He').
        exists e'. split; [by right | done].
    + split; [|done]. intros _. exists e. split; [by left | done].
Qed.

Lemma lower_includes_holds_query (v : any) (q : string) :
  lower_includes v q = Some true <-> holds_query v q.
Proof.
  unfold lower_includes, holds_query. destruct v as [| | | |s].
  1-4: split; [done | by intros (s & [=] & _)].
  split.
  - intros [= H]. exists s. split; [done | by apply includes_lower_contains_ci].
  - intros (s' & [= <-] & H). f_equal. by apply includes_lower_contains_ci.
Qed.

Lemma lower_includes_None (v : any) (q : string) :
  lower_includes v q = None <-> ~ searchable v.
Proof. unfold lower_includes, searchable. destruct v; split; try done; tauto. Qed.

Lemma matchesSearch_None (q : string) (e : AuditEntry.t) :
  matchesSearch q e = None <-> breaks_search q e.
Proof.
  unfold matchesSearch, breaks_search.
  rewrite <- (lower_includes_holds_query (fullName_of e)),
    <- (lower_includes_None (fullName_of e) q), <- (lower_includes_None (email_of e) q).
  unfold fullName_of, email_of.
  destruct (lower_includes (get (AuditEntry.formData e) "fullName") q) as [[|]|];
    destruct (lower_includes (get (AuditEntry.formData e) "email") q) as [[|]|];
    intuition congruence.
Qed.

Lemma matchesSearch_true (q : string) (e : AuditEntry.t) :
  matchesSearch q e <> None ->
  matchesSearch q e = Some true
  <-> holds_query (fullName_of e) q \/ holds_query (email_of e) q.
Proof.
  rewrite <- !lower_includes_holds_query.
  unfold matchesSearch, fullName_of, email_of.
  destruct (lower_includes (get (AuditEntry.formData e) "fullName") q) as [[|]|];
    destruct (lower_includes (get (AuditEntry.formData e) "email") q) as [[|]|];
    intuition congruence.
Qed.

Lemma matchesFilter_spec (f : CountFilter) (e : AuditEntry.t) :
  matchesFilter f e = true <-> passes_count_filter f e.
Proof.
  unfold matchesFilter, passes_count_filter. destruct f as [|[| |x|]]; [done|..];
    cbn [num_eq int]; unfold inject_Z;
    repeat match goal with |- context [Qeq_bool ?a ?b] => destruct (Qeq_bool a b) end;
    first [apply Nat.leb_le | apply Nat.eqb_eq].
Qed.

(** X23.  The rows of the audit table.  The filter callback throws on an
    entry exactly when the name is neither a string nor [undefined] nor
    [null], or when the name does not hold the query and the e-mail is
    neither a string nor [undefined] nor [null]; the table has rows exactly
    when the callback throws on no entry of the log, which is the case when
    every name and e-mail is a string, [undefined] or [null].  The rows are
    then the entries of the log, in the order of the log, whose name or
    e-mail is a string that contains the query, both compared in lower
    case, and whose number of exceptions passes the count filter: all of
    them for ['all'], three or more for [3], one or more for [1], none
    for any other number. *)
Theorem visibleEntries_rows (q : string) (f : CountFilter) (auditLog : list AuditEntry.t) :
  (visibleEntries q f auditLog = None
   <-> exists e, In e auditLog /\ breaks_search q e)
  /\ (forall rows,
        visibleEntries q f auditLog = Some rows ->
        exists keep : AuditEntry.t -> bool,
          rows = List.filter keep auditLog
          /\ forall e, In e auditLog -> keep e = true <-> shown q f e)
  /\ (Forall (fun e => searchable (fullName_of e) /\ searchable (email_of e)) auditLog ->
      exists rows, visibleEntries q f auditLog = Some rows).
Proof.
  assert (Hnone : visibleEntries q f auditLog = None
                  <-> exists e, In e auditLog /\ breaks_search q e).
  { rewrite visibleEntries_None. by setoid_rewrite matchesSearch_None. }
  split; [exact Hnone|]. split.
  - intros rows H. apply visibleEntries_Some in H as [-> Hall].
    eexists. split; [reflexivity|]. intros e Hin.
    rewrite Forall_forall in Hall. apply list_elem_of_In in Hin. specialize (Hall e Hin).
    unfold shown. rewrite andb_true_iff, bool_decide_eq_true, matchesFilter_spec.
    by rewrite (matchesSearch_true q e Hall).
  - intros Hs. destruct (visibleEntries q f auditLog) as [rows|] eqn:Hv; [by eexists|].
    destruct (proj1 Hnone eq_refl) as (e & Hin & He).
    rewrite Forall_forall in Hs. apply list_elem_of_In in Hin.
    destruct (Hs e Hin) as [H1 H2]. unfold breaks_search in He. tauto.
Qed.

Lemma includes_empty (s : string) : includes s "" = true.
Proof. by destruct s. Qed.

Lemma matchesSearch_empty_query (e : AuditEntry.t) (m : bool) :
  matchesSearch "" e = Some m ->
  m = is_string (fullName_of e) || is_string (email_of e).
Proof.
  unfold matchesSearch, fullName_of, email_of, lower_includes.
  destruct (get (AuditEntry.formData e) "fullName") as [| | | |s]; try done;
    destruct (get (AuditEntry.formData e) "email") as [| | | |s']; try done;
    cbn [toLowerCase]; rewrite ?includes_empty; by intros [= <-].
Qed.

(** X24.  The empty query does not show every entry: with nothing typed in
    the search box, the table shows the entries that hold a string for the
    name or for the e-mail (and pass the count filter), and hides an entry
    that holds neither. *)
Theorem empty_query_hides_nameless_entries (f : CountFilter)
    (auditLog rows : list AuditEntry.t) :
  visibleEntries "" f auditLog = Some rows ->
  rows = List.filter
           (fun e => (is_string (fullName_of e) || is_string (email_of e)) && matchesFilter f e)
           auditLog.
Proof.
  intros Hv. apply visibleEntries_Some in Hv as [-> Hall].
  apply filter_ext_in. intros e Hin.
  rewrite Forall_forall in Hall. apply list_elem_of_In in Hin. specialize (Hall e Hin).
  destruct (matchesSearch "" e) as [m|] eqn:Hm; [|done].
  rewrite (matchesSearch_empty_query e m Hm).
  apply matchesSearch_empty_query in Hm. rewrite <- Hm.
  f_equal. by destruct m.
Qed.

(** ** The qualification chart *)

Lemma list_sum_cons (n : nat) (l : list nat) : list_sum (n :: l) = (n + list_sum l)%nat.
Proof. reflexivity. Qed.

Lemma list_sum_filter_positive (l : list (string * nat)) :
  list_sum (map snd (List.filter (fun d => (0 <? snd d)%nat) l)) = list_sum (map snd l).
Proof.
  induction l as [|[o n] l IH]; [done|]. cbn [List.filter snd map list_sum].
  destruct (Nat.ltb_spec 0 n); cbn [snd map]; rewrite ?list_sum_cons, IH; lia.
Qed.

(** An entry is counted for at most one of distinct options. *)
Lemma one_option_matches (v : any) (opts : list string) :
  NoDup opts ->
  (list_sum (map (fun opt => if strict_eq v (VStr opt) then 1 else 0) opts) <= 1)%nat.
Proof.
  induction 1 as [|o opts Ho _ IH]; cbn [map]; rewrite ?list_sum_cons; [cbn; lia|].
  destruct (strict_eq v (VStr o)) eqn:He; [|lia].
  assert (list_sum (map (fun opt => if strict_eq v (VStr opt) then 1 else 0) opts) = 0)%nat
    as ->; [|lia].
  destruct v as [| | | |s]; try done. cbn in He. apply String.eqb_eq in He as ->.
  clear IH. induction opts as [|o' opts IH]; [done|]. cbn [map].
  rewrite list_sum_cons. destruct (strict_eq (VStr o) (VStr o')) eqn:He.
  - cbn in He. apply String.eqb_eq in He as ->. exfalso. apply Ho. by left.
  - rewrite IH; [done|]. intros Hin. apply Ho. by right.
Qed.

Lemma option_counts_bounded (auditLog : list AuditEntry.t) (opts : list string) :
  NoDup opts ->
  (list_sum
     (map (fun opt =>
             length (List.filter
                       (fun e => strict_eq (get (AuditEntry.formData e) "qualification")
                                   (VStr opt))
                       auditLog))
        opts)
   <= length auditLog)%nat.
Proof.
  intros Hnd. induction auditLog as [|e l IH].
  - cbn [List.filter length]. clear Hnd. induction opts; [cbn; lia|].
    cbn [map]. by rewrite list_sum_cons.
  - pose proof (one_option_matches (get (AuditEntry.formData e) "qualification") opts Hnd)
      as Hone.
    cbn [List.filter length].
    assert (Hsplit : forall os,
               list_sum
                 (map (fun opt =>
                         length
                           (if strict_eq (get (AuditEntry.formData e) "qualification") (VStr opt)
                            then e :: List.filter
                                        (fun e0 => strict_eq
                                                     (get (AuditEntry.formData e0) "qualification")
                                                     (VStr opt)) l
                            else List.filter
                                   (fun e0 => strict_eq
                                                (get (AuditEntry.formData e0) "qualification")
                                                (VStr opt)) l))
                    os)
               = (list_sum (map (fun opt =>
                                   if strict_eq (get (AuditEntry.formData e) "qualification")
                                        (VStr opt) then 1 else 0) os)
                  + list_sum
                      (map (fun opt =>
                              length (List.filter
                                        (fun e0 => strict_eq
                                                     (get (AuditEntry.formData e0) "qualification")
                                                     (VStr opt)) l))
                         os))%nat).
    { induction os as [|o os IHos]; [done|]. cbn [map]. rewrite !list_sum_cons, IHos.
      destruct (strict_eq _ (VStr o)); cbn [length]; lia. }
    rewrite Hsplit. lia.
Qed.

(** X25.  The qualification chart lists options of the [qualification]
    field only, each with a positive number of entries; when the options of
    the field are distinct, no entry is counted twice: the numbers of the
    chart add up to the size of the log at most. *)
Theorem qualificationMix_counts_each_entry_once (schema : list Field.t)
    (auditLog : list AuditEntry.t) (field : Field.t) (opts : list string) :
  find_field schema "qualification" = Some field ->
  Field.options field = Some opts ->
  Forall (fun d => In (fst d) opts /\ (0 < snd d)%nat) (qualificationMix schema auditLog)
  /\ (NoDup opts ->
      (list_sum (map snd (qualificationMix schema auditLog)) <= length auditLog)%nat).
Proof.
  intros Hf Ho. unfold qualificationMix. rewrite Hf, Ho. split.
  - apply Forall_forall. intros [o n] Hin. apply list_elem_of_In, filter_In in Hin as [Hin Hpos].
    apply in_map_iff in Hin as (o' & [= -> <-] & Hin).
    split; [done|]. by apply Nat.ltb_lt in Hpos.
  - intros Hnd. rewrite list_sum_filter_positive, map_map. cbn [snd].
    by apply option_counts_bounded.
Qed.

(** ** From a submission to the next form *)

Section SubmissionFlow.

Variable RegExp_compile : string -> option (string -> bool).
Variable ageInYears : any -> number.

(** Against a log that records the e-mail, the shipped [email] field rejects
    it: as empty, as malformed, or as already present. *)
Lemma recorded_email_is_rejected (s : string) (allData : gmap string any)
    (entry : AuditEntry.t) (auditLog : list AuditEntry.t) :
  email_of entry = VStr s ->
  exists res,
    validateField RegExp_compile ageInYears email (VStr s) allData (entry :: auditLog)
    = Returned res
    /\ ValidationResult.valid res = false.
Proof.
  intros He. unfold validateField, email, strict_field.
  cbn [Field.validations Field.id Field.category run_rules check_rule simple_rule unique_rule
       Rule.type Rule.checkStorage Rule.message strict_eq orb].
  destruct (String.eqb s ""); [by eexists|].
  cbn [orb]. destruct (negb (RegExp_test email_re s)); [by eexists|].
  unfold exists_in_log. cbn [existsb]. unfold email_of in He. rewrite He.
  cbn [strict_eq]. rewrite String.eqb_refl. by eexists.
Qed.

(** X26.  A submitted e-mail cannot be submitted again: once [handleSubmit]
    has stored a record whose e-mail is a string, the validation effect on
    any later record with that e-mail returns, when the patterns of the
    shipped schema compile, a verdict map under which [canSubmit] is false
    whatever the exceptions. *)
Theorem resubmitted_email_is_blocked (state prev : AppState.t) (id timestamp s : string)
    (formData : gmap string any) :
  Forall (patterns_compile RegExp_compile) (fields rulesConfig) ->
  get (AppState.formData state) "email" = VStr s ->
  get formData "email" = VStr s ->
  exists errors,
    validationEffect RegExp_compile ageInYears (fields rulesConfig) formData
      (AppState.auditLog (handleSubmit rulesConfig state id timestamp prev))
    = Returned errors
    /\ forall exceptions, canSubmit (fields rulesConfig) errors exceptions formData = false.
Proof.
  intros Hpc Hs Hf. cbn [handleSubmit AppState.auditLog].
  set (log := newEntry rulesConfig state id timestamp :: AppState.auditLog prev).
  destruct (collect_errors_returns RegExp_compile ageInYears formData log (fields rulesConfig)
              Hpc ∅) as (errors & Herr).
  exists errors. split; [done|]. intros exceptions.
  destruct (recorded_email_is_rejected s formData (newEntry rulesConfig state id timestamp)
              (AppState.auditLog prev) Hs) as (res & Hres & Hinv).
  assert (Hl : errors !! "email" = Some res).
  { apply (collect_errors_failure RegExp_compile ageInYears formData log (fields rulesConfig)
             ∅ errors email res); [| |done| |done].
    - apply (bool_decide_unpack _). by vm_compute.
    - cbn. tauto.
    - cbn [Field.id email strict_field]. by rewrite Hf. }
  unfold canSubmit.
  assert (hasStrictErrors (fields rulesConfig) errors exceptions = true) as ->; [|done].
  apply hasStrictErrors_spec. exists "email", res, email.
  split; [done|]. split; [done|]. right. split; [done | by left].
Qed.

End SubmissionFlow.

(** * The further properties on sample data *)

Lemma verdict_flags_come_from_the_field_witness :
  exists res,
    validateField subset_engine age_unknown decision_field (VStr "Rejected") ∅ [] = Returned res
    /\ ValidationResult.isSoft res = true
    /\ (ValidationResult.blockSubmission res = Some true ->
        ValidationResult.valid res = false
        /\ exists rule, In rule (Field.validations decision_field)
             /\ Rule.type rule = notEquals
             /\ Rule.blockSubmission rule = Some true
             /\ strict_eq (VStr "Rejected") (Rule.value rule) = true).
Proof.
  eexists. split; [reflexivity|].
  apply (verdict_flags_come_from_the_field subset_engine age_unknown decision_field
           (VStr "Rejected") ∅ []).
  reflexivity.
Defined.

Lemma validationEffect_stores_the_failures_witness :
  exists errors,
    validationEffect subset_engine age_unknown [nickname_field; contact_field]
      {[ "contact" := VStr "a@b.co" ]} [] = Returned errors
    /\ (forall field res,
          In field [nickname_field; contact_field] ->
          errors !! Field.id field = Some res
          <-> validateField subset_engine age_unknown field
                (get {[ "contact" := VStr "a@b.co" ]} (Field.id field))
                {[ "contact" := VStr "a@b.co" ]} [] = Returned res
              /\ ValidationResult.valid res = false)
    /\ (forall id, ~ In id (map Field.id [nickname_field; contact_field]) ->
                   errors !! id = None).
Proof.
  eexists. split; [vm_compute; reflexivity|].
  apply (validationEffect_stores_the_failures subset_engine age_unknown
           [nickname_field; contact_field] {[ "contact" := VStr "a@b.co" ]} []).
  - apply (bool_decide_unpack _). by vm_compute.
  - vm_compute. reflexivity.
Defined.

Lemma valid_record_can_be_submitted_witness :
  validationEffect subset_engine age_unknown [nickname_field; contact_field]
    {[ "nickname" := VStr "Bo"; "contact" := VStr "a@b.co" ]} [] = Returned ∅
  /\ missingRequired [nickname_field; contact_field]
       {[ "nickname" := VStr "Bo"; "contact" := VStr "a@b.co" ]} = false
  /\ canSubmit [nickname_field; contact_field] ∅ ∅
       {[ "nickname" := VStr "Bo"; "contact" := VStr "a@b.co" ]} = true.
Proof.
  apply (valid_record_can_be_submitted subset_engine age_unknown).
  intros field [<-|[<-|[]]]; eexists; (split; [vm_compute; reflexivity | reflexivity]).
Defined.

Lemma range_bounds_are_inclusive_witness :
  check_rule subset_engine age_unknown graduationYear (VStr "2025.0000000000000001") ∅ []
    (bounds_rule range 2015 2025 "Graduation year must be between 2015-2025") = Returned None
  /\ check_rule subset_engine age_unknown graduationYear (VStr "2025.000000000001") ∅ []
       (bounds_rule range 2015 2025 "Graduation year must be between 2015-2025")
     = Returned (Some (failure true (Some "Graduation year must be between 2015-2025"))).
Proof.
  split.
  - refine (proj1 (range_bounds_are_inclusive subset_engine age_unknown graduationYear
                     (VStr "2025.0000000000000001") ∅ []
                     (bounds_rule range 2015 2025 "Graduation year must be between 2015-2025")
                     (inject_Z 2015) (inject_Z 2025) (inject_Z 2025) _ _ _ _ _ _) _);
      try reflexivity; try (by vm_compute).
  - refine (proj2 (range_bounds_are_inclusive subset_engine age_unknown graduationYear
                     (VStr "2025.000000000001") ∅ []
                     (bounds_rule range 2015 2025 "Graduation year must be between 2015-2025")
                     (inject_Z 2015) (inject_Z 2025)
                     (2226511046246401 # 1099511627776) _ _ _ _ _ _) _);
      try reflexivity; try (by vm_compute).
    right. by vm_compute.
Defined.

Lemma range_zero_bound_is_no_bound_witness :
  check_rule subset_engine age_unknown screeningScore (VStr "-5") ∅ []
    (bounds_rule range 0 100 "Score must be 0-100") = Returned None.
Proof.
  refine (proj1 (range_zero_bound_is_no_bound subset_engine age_unknown screeningScore
                   (VStr "-5") ∅ [] (bounds_rule range 0 100 "Score must be 0-100")
                   (inject_Z 0) (inject_Z 100) (inject_Z (-5)) _ _ _ _) _ _ _);
    try reflexivity; by vm_compute.
Defined.

Lemma noNumbers_rejects_digits_witness :
  check_rule subset_engine age_unknown fullName (VStr "R2D2") ∅ []
    (pattern_rule noNumbers "^[^0-9]*$" "Name cannot contain numbers")
    = Returned (Some (failure false (Some "Name cannot contain numbers")))
  <-> exists c, In c (chars "R2D2") /\ is_digit c = true.
Proof.
  apply (noNumbers_rejects_digits subset_engine age_unknown fullName "R2D2" ∅ []). reflexivity.
Defined.

Lemma conditional_without_applicable_condition_witness :
  check_rule subset_engine age_unknown scoreValue (VStr "12") {[ "scoreType" := VStr "gpa" ]} []
    (conditional_rule
       [ {| Cond.when := "scoreType"; Cond.is_ := VStr "percentage"; Cond.in_ := None;
            Cond.requires := None; Cond.min := Some (int 60); Cond.max := None;
            Cond.message := Some "Percentage must be at least 60" |} ])
  = Returned None.
Proof.
  apply (conditional_without_applicable_condition subset_engine age_unknown); [reflexivity|].
  intros conds cond [= <-] [<-|[]]. vm_compute. reflexivity.
Defined.

Lemma scoreValue_thresholds_witness :
  (validateField subset_engine age_unknown scoreValue (VStr "59.99999999999999999")
     {[ "scoreType" := VStr "percentage" ]} [] = Returned (valid_verdict scoreValue)
   <-> (60 <= 60)%Q)
  /\ (validateField subset_engine age_unknown scoreValue (VStr "59.5")
        {[ "scoreType" := VStr "percentage" ]} [] = Returned (valid_verdict scoreValue)
      <-> (60 <= 119 # 2)%Q)
  /\ (validateField subset_engine age_unknown scoreValue (VStr "10.0000000000000001")
        {[ "scoreType" := VStr "cgpa" ]} [] = Returned (valid_verdict scoreValue)
      <-> (6 <= 10)%Q /\ (10 <= 10)%Q).
Proof.
  split; [|split].
  - apply (scoreValue_thresholds subset_engine age_unknown "59.99999999999999999" 60
             {[ "scoreType" := VStr "percentage" ]} []); [done | by vm_compute | reflexivity].
  - apply (scoreValue_thresholds subset_engine age_unknown "59.5" (119 # 2)
             {[ "scoreType" := VStr "percentage" ]} []); [done | by vm_compute | reflexivity].
  - apply (scoreValue_thresholds subset_engine age_unknown "10.0000000000000001" 10
             {[ "scoreType" := VStr "cgpa" ]} []); [done | by vm_compute | reflexivity].
Defined.

Lemma accepted_email_has_one_at_witness :
  count_occ ascii_dec (chars "asha@example.com") "@"%char = 1%nat
  /\ Forall (fun c => is_space c = false) (chars "asha@example.com").
Proof.
  apply (accepted_email_has_one_at subset_engine age_unknown contact_field "asha@example.com"
           ∅ [] (simple_rule emailFormat "Enter a valid email address")); [reflexivity|].
  vm_compute. reflexivity.
Defined.

Lemma accepted_rationale_stays_accepted_witness :
  RationaleResult.valid
    (checkRationale screeningScore
       ("Note: " +:+ "approved by the dean as a special case" +:+ " (see file)")) = true.
Proof.
  apply (accepted_rationale_stays_accepted screeningScore). vm_compute. reflexivity.
Defined.

Lemma checkRationale_ignores_case_witness :
  checkRationale screeningScore "APPROVED BY the Dean as a Special Case"
  = checkRationale screeningScore "approved by the dean as a special case".
Proof.
  apply checkRationale_ignores_case. vm_compute. reflexivity.
Defined.

Lemma strict_failure_always_blocks_witness :
  canSubmit [contact_field]
    {[ "contact" := failure false (Some "Enter a valid email address") ]}
    {[ "contact" := on "approved by the dean as a special case" ]}
    {[ "contact" := VStr "asha" ]} = false.
Proof.
  apply (strict_failure_always_blocks [contact_field] _ _ _ "contact" contact_field
           (failure false (Some "Enter a valid email address"))); reflexivity.
Defined.

Lemma empty_required_field_always_blocks_witness :
  canSubmit [consent_field] ∅ {[ "consent" := on "approved by the dean as a special case" ]}
    {[ "consent" := VStr "" ]} = false.
Proof.
  apply empty_required_field_always_blocks. exists consent_field.
  split; [by left|]. split.
  - eexists. split; [by left | reflexivity].
  - right. right. reflexivity.
Defined.

Lemma exceptions_matter_only_for_failed_fields_witness :
  canSubmit [nickname_field; contact_field]
    {[ "contact" := failure false (Some "Enter a valid email address") ]}
    (<["nickname" := on "approved by the dean as a special case"]> ∅)
    {[ "nickname" := VStr "Bo"; "contact" := VStr "asha" ]}
  = canSubmit [nickname_field; contact_field]
      {[ "contact" := failure false (Some "Enter a valid email address") ]}
      ∅ {[ "nickname" := VStr "Bo"; "contact" := VStr "asha" ]}.
Proof.
  apply exceptions_matter_only_for_failed_fields. reflexivity.
Defined.

Lemma verdicts_of_unknown_ids_never_block_witness :
  canSubmit [nickname_field]
    (<["contact" := failure false (Some "Enter a valid email address")]> ∅) ∅
    {[ "nickname" := VStr "Bo" ]}
  = canSubmit [nickname_field] (delete "contact" ∅) ∅ {[ "nickname" := VStr "Bo" ]}.
Proof.
  apply verdicts_of_unknown_ids_never_block. reflexivity.
Defined.

Lemma soft_failure_needs_an_accepted_rationale_witness :
  canSubmit [aptitude_field] {[ "aptitude" := failure true (Some "Minimum score is 40") ]}
    (AppState.exceptions
       (handleRationaleChange "aptitude" "approved by the dean as a special case"
          (toggleException "aptitude" initial_state)))
    (AppState.formData
       (handleRationaleChange "aptitude" "approved by the dean as a special case"
          (toggleException "aptitude" initial_state)))
  = RationaleResult.valid
      (checkRationale aptitude_field "approved by the dean as a special case").
Proof.
  apply (soft_failure_needs_an_accepted_rationale [aptitude_field] initial_state "aptitude"
           aptitude_field (failure true (Some "Minimum score is 40")));
    try reflexivity. discriminate.
Defined.

Lemma toggleException_moves_the_count_by_one_witness :
  activeExceptionsCount (AppState.exceptions (toggleException "dob" initial_state))
  = S (activeExceptionsCount (AppState.exceptions initial_state)).
Proof.
  apply (toggleException_moves_the_count_by_one "dob" initial_state). reflexivity.
Defined.

Lemma deleteEntry_undoes_handleSubmit_witness :
  AppState.auditLog
    (deleteEntry "b"
       (handleSubmit rulesConfig initial_state "b" "2024-01-02T00:00:00.000Z"
          (handleSubmit rulesConfig initial_state "a" "2024-01-01T00:00:00.000Z"
             initial_state)))
  = AppState.auditLog
      (handleSubmit rulesConfig initial_state "a" "2024-01-01T00:00:00.000Z" initial_state).
Proof.
  apply (deleteEntry_undoes_handleSubmit rulesConfig initial_state).
  intros e [<-|[]]. discriminate.
Defined.

Lemma form_after_submission_is_blocked_witness :
  canSubmit (fields rulesConfig) ∅ ∅
    (AppState.formData
       (handleSubmit rulesConfig initial_state "a" "2024-01-01T00:00:00.000Z" initial_state))
  = false.
Proof.
  apply (form_after_submission_is_blocked rulesConfig (fields rulesConfig) initial_state
           initial_state "a" "2024-01-01T00:00:00.000Z" fullName).
  - by left.
  - eexists. split; [by left | reflexivity].
  - discriminate.
  - discriminate.
Defined.

Lemma audit_log_entries_are_consistent_witness :
  Forall (consistent_entry rulesConfig)
    (AppState.auditLog
       (handleSubmit rulesConfig (toggleException "dob" initial_state) "a"
          "2024-01-01T00:00:00.000Z" initial_state)).
Proof.
  apply audit_log_entries_are_consistent.
  apply reach_submit; [apply reach_toggle|]; apply reach_initial.
Defined.

Lemma visibleEntries_rows_witness :
  visibleEntries "asha" all_entries
    [entry_of {[ "fullName" := VStr "Asha Rao" ]}; entry_of {[ "fullName" := VNum (int 5) ]}]
  = None.
Proof.
  apply (visibleEntries_rows "asha" all_entries).
  exists (entry_of {[ "fullName" := VNum (int 5) ]}). split; [right; by left|].
  left. vm_compute. tauto.
Defined.

Lemma empty_query_hides_nameless_entries_witness :
  [entry_of {[ "fullName" := VStr "Asha" ]}]
  = List.filter
      (fun e => (is_string (fullName_of e) || is_string (email_of e))
                && matchesFilter all_entries e)
      [entry_of {[ "fullName" := VStr "Asha" ]}; entry_of {[ "phone" := VStr "9876543210" ]}].
Proof.
  apply empty_query_hides_nameless_entries. vm_compute. reflexivity.
Defined.

Lemma qualificationMix_counts_each_entry_once_witness :
  (list_sum (map snd (qualificationMix (fields rulesConfig)
                        [entry_of {[ "qualification" := VStr "MCA" ]};
                         entry_of {[ "qualification" := VStr "PhD" ]}]))
   <= 2)%nat.
Proof.
  apply (qualificationMix_counts_each_entry_once (fields rulesConfig)
           [entry_of {[ "qualification" := VStr "MCA" ]};
            entry_of {[ "qualification" := VStr "PhD" ]}] qualification
           ["B.Tech"; "B.E."; "B.Sc"; "BCA"; "M.Tech"; "M.Sc"; "MCA"; "MBA"]);
    [reflexivity | reflexivity|].
  apply (bool_decide_unpack _). by vm_compute.
Defined.

Lemma resubmitted_email_is_blocked_witness :
  exists errors,
    validationEffect subset_engine age_unknown (fields rulesConfig)
      {[ "email" := VStr "asha@example.com" ]}
      (AppState.auditLog
         (handleSubmit rulesConfig
            (handleInputChange "email" (VStr "asha@example.com") initial_state)
            "a" "2024-01-01T00:00:00.000Z" initial_state))
    = Returned errors
    /\ forall exceptions,
         canSubmit (fields rulesConfig) errors exceptions
           {[ "email" := VStr "asha@example.com" ]} = false.
Proof.
  apply (resubmitted_email_is_blocked subset_engine age_unknown
           (handleInputChange "email" (VStr "asha@example.com") initial_state)
           initial_state "a" "2024-01-01T00:00:00.000Z" "asha@example.com").
  - exact patterns_compile_shipped.
  - reflexivity.
  - reflexivity.
Defined.
